(** * RAG-QA-Agent: the self-evaluating retrieval loop and its HTTP boundary

    A shallow embedding of [src/agent/state.py], [src/agent/nodes.py],
    [src/agent/graph.py], [src/chains/*.py] and [src/api/routes.py].

    Python values are modelled as follows.
    - [str] is a sequence of Unicode code points ([list N]); [len] and
      slicing count code points, exactly as [length] and [take] do here.
    - [int] is [Z].
    - a [set] of strings is a [gset].
    - the language model, the vector store and the document loaders are
      external services.  Each is a function of an abstract world [W]
      which may answer differently at every call and may fail.
    - exceptions are the left summand of the result of a computation. *)

From Stdlib Require Import ZArith QArith String Ascii DecimalString.
From stdpp Require Import base option list countable strings gmap.

Local Open Scope Z_scope.

(* ================================================================== *)
(** * Python strings *)

Abbreviation pystr := (list N).

(** An ASCII literal as a Python string. *)
Definition py (s : string) : pystr :=
  (fun a => N_of_ascii a) <$> list_ascii_of_string s.

(** [str(n)] for an [int]. *)
Definition str_of_int (z : Z) : pystr :=
  py (NilZero.string_of_int (Z.to_int z)).

(** Truthiness of a [str]: the empty string is falsy. *)
Definition str_truthy (s : pystr) : bool :=
  match s with [] => false | _ :: _ => true end.

(* ================================================================== *)
(** * langchain_core.documents.Document *)

(** The values the loaders store under a metadata key: text (the
    source path) or a number (the page index of a PDF). *)
Inductive MetaVal :=
| MStr (s : pystr)
| MInt (z : Z).

Definition meta_str (v : MetaVal) : pystr :=
  match v with MStr s => s | MInt z => str_of_int z end.

Definition meta_truthy (v : MetaVal) : bool :=
  match v with MStr s => str_truthy s | MInt z => negb (z =? 0) end.

(** [metadata] is a dict of which the program reads the keys ["source"]
    and ["page"]; a key that is absent is [None].  The source is text in
    every document the loaders produce (and the response schema accepts
    nothing else). *)
Record Metadata := {
  md_source : option pystr;
  md_page : option MetaVal
}.

Record Document := {
  page_content : pystr;
  metadata : Metadata
}.

(** The literal ["不明"], the default of [metadata.get("source", ...)]. *)
Definition UNKNOWN_SOURCE : pystr := [19981; 26126]%N.

(** [doc.metadata.get("source", "不明")] *)
Definition source_key (doc : Document) : pystr :=
  default UNKNOWN_SOURCE (md_source (metadata doc)).

(** [doc.metadata.get("page", "")] *)
Definition page_value (doc : Document) : MetaVal :=
  default (MStr []) (md_page (metadata doc)).

(* ================================================================== *)
(** * src/agent/state.py: RAGAgentState *)

Record RAGAgentState := {
  query : pystr;
  search_queries : list pystr;
  retrieved_documents : list Document;
  answer : pystr;
  is_sufficient : bool;
  evaluation_reason : pystr;
  iteration : Z
}.

(** A node returns a dict holding only the keys it updates. *)
Record Update := {
  upd_query : option pystr;
  upd_search_queries : option (list pystr);
  upd_retrieved_documents : option (list Document);
  upd_answer : option pystr;
  upd_is_sufficient : option bool;
  upd_evaluation_reason : option pystr;
  upd_iteration : option Z
}.

Definition no_update : Update :=
  {| upd_query := None; upd_search_queries := None;
     upd_retrieved_documents := None; upd_answer := None;
     upd_is_sufficient := None; upd_evaluation_reason := None;
     upd_iteration := None |}.

(** How the graph merges a node's dict into the state: a plain key is
    overwritten, and [retrieved_documents], which is annotated with
    [operator.add], becomes [old + new]. *)
Definition apply_update (st : RAGAgentState) (u : Update) : RAGAgentState :=
  {| query := default (query st) (upd_query u);
     search_queries := default (search_queries st) (upd_search_queries u);
     retrieved_documents :=
       match upd_retrieved_documents u with
       | Some new => retrieved_documents st ++ new
       | None => retrieved_documents st
       end;
     answer := default (answer st) (upd_answer u);
     is_sufficient := default (is_sufficient st) (upd_is_sufficient u);
     evaluation_reason :=
       default (evaluation_reason st) (upd_evaluation_reason u);
     iteration := default (iteration st) (upd_iteration u) |}.

(* ================================================================== *)
(** * src/agent/graph.py: the loop decision *)

Definition MAX_ITERATIONS : Z := 3.

(** [should_retry].  Every key is present in a [RAGAgentState], so
    [state.get(k, default)] is the field. *)
Definition should_retry (state : RAGAgentState) : string :=
  if is_sufficient state then "end"
  else if iteration state >=? MAX_ITERATIONS then "end"
  else "retry".

Inductive Node :=
| analyze_query_node
| retrieve_documents_node
| generate_answer_node
| evaluate_answer_node
| END.

Global Instance Node_eq_dec : EqDecision Node.
Proof. solve_decision. Defined.

(** The mapping given to [add_conditional_edges]. *)
Definition conditional_edges : gmap string Node :=
  {[ "retry" := analyze_query_node; "end" := END ]}.

(** The edges of [create_rag_agent]: three plain edges and the
    conditional edge after [evaluate_answer], which is decided on the
    state the node's update has been merged into.  [None] is a key that
    the edge map does not hold. *)
Definition next_node (n : Node) (st : RAGAgentState) : option Node :=
  match n with
  | analyze_query_node => Some retrieve_documents_node
  | retrieve_documents_node => Some generate_answer_node
  | generate_answer_node => Some evaluate_answer_node
  | evaluate_answer_node => conditional_edges !! should_retry st
  | END => Some END
  end.

(* ================================================================== *)
(** * src/chains: the structured-output schemas *)

(** What the model sends back for a structured request, before it is
    checked against the schema: a required field may be absent, and the
    list may have any length. *)
Record RawSearchQueries := {
  raw_queries : option (list pystr);
  raw_intent : option pystr
}.

Module SearchQueries.
Record t := { queries : list pystr; intent : pystr }.

(** [queries] is required with [min_length=1] and [max_length=5];
    [intent] is required. *)
Definition validate (raw : RawSearchQueries) : option t :=
  match raw_queries raw, raw_intent raw with
  | Some qs, Some i =>
      if (1 <=? length qs)%nat && (length qs <=? 5)%nat
      then Some {| queries := qs; intent := i |}
      else None
  | _, _ => None
  end.
End SearchQueries.

(** The evaluation the model sends, before the check.  A field that is
    present has the type the schema asks for, and the score is a
    number; [None] is a field that was left out.  A payload with a
    field of another type (a null, a text where the score goes, a
    score that is not a number) is not of this type: the schema
    rejects it as well. *)
Record RawEvaluationResult := {
  raw_is_sufficient : option bool;
  raw_score : option Q;
  raw_reason : option pystr;
  raw_missing_info : option pystr
}.

Module EvaluationResult.
Record t := {
  is_sufficient : bool;
  score : Q;
  reason : pystr;
  missing_info : pystr
}.

(** [is_sufficient], [score] (with [ge=0.0], [le=1.0]) and [reason]
    are required; [missing_info] defaults to the empty string. *)
Definition validate (raw : RawEvaluationResult) : option t :=
  match raw_is_sufficient raw, raw_score raw, raw_reason raw with
  | Some b, Some sc, Some r =>
      if Qle_bool 0 sc && Qle_bool sc 1
      then Some {| is_sufficient := b; score := sc; reason := r;
                   missing_info := default [] (raw_missing_info raw) |}
      else None
  | _, _, _ => None
  end.
End EvaluationResult.

(* ================================================================== *)
(** * Exceptions, events and the external services *)

Inductive Error :=
| ValidationError          (* structured output rejected by its schema *)
| BackendError             (* the model, the store or a loader raised *)
| GraphRecursionError      (* the graph ran past its step limit *)
| GraphKeyError            (* a conditional edge returned an unmapped key *)
| HTTPException (status_code : Z).

(** What a run does that an observer outside can see, in order. *)
Inductive Event :=
| EvNode (n : Node)
| EvQueryAnalyzer (question : pystr)
| EvSimilaritySearch (q : pystr) (k : Z)
| EvAnswerGenerator (question context : pystr)
| EvEvaluator (question answer_text : pystr)
| EvTempFile (suffix content : pystr)
| EvLoadPdf
| EvLoadMarkdown
| EvSplit (documents : list Document) (chunk_size chunk_overlap : Z)
| EvAddDocuments (chunks : list Document)
| EvUnlink.

(** The services behind the chains and the managers.  A service reads
    and changes the world; [None] is a call that raised. *)
Record Capabilities (W : Type) := {
  structured_llm_queries : pystr -> W -> option RawSearchQueries * W;
  structured_llm_evaluation :
    pystr -> pystr -> W -> option RawEvaluationResult * W;
  llm_answer : pystr -> pystr -> W -> option pystr * W;
  chroma_similarity_search : pystr -> Z -> W -> option (list Document) * W;
  write_temp_file : pystr -> pystr -> W -> option unit * W;
  load_pdf : W -> option (list Document) * W;
  load_markdown : W -> option (list Document) * W;
  split_documents :
    list Document -> Z -> Z -> W -> option (list Document) * W;
  add_documents : list Document -> W -> option unit * W;
  unlink_temp_file : W -> option unit * W
}.
Arguments structured_llm_queries {W}.
Arguments structured_llm_evaluation {W}.
Arguments llm_answer {W}.
Arguments chroma_similarity_search {W}.
Arguments write_temp_file {W}.
Arguments load_pdf {W}.
Arguments load_markdown {W}.
Arguments split_documents {W}.
Arguments add_documents {W}.
Arguments unlink_temp_file {W}.

(** The world together with the log of what was done to it. *)
Record Sys (W : Type) := { world : W; trace : list Event }.
Arguments world {W}.
Arguments trace {W}.

(** A computation that may raise: state passing over [Sys], with the
    state kept when an exception leaves the computation. *)
Definition M (W A : Type) : Type := Sys W -> (Error + A) * Sys W.

Definition ret {W A} (a : A) : M W A := fun s => (inr a, s).

Definition raise {W A} (e : Error) : M W A := fun s => (inl e, s).

Definition bind {W A B} (m : M W A) (k : A -> M W B) : M W B :=
  fun s =>
    match m s with
    | (inr a, s') => k a s'
    | (inl e, s') => (inl e, s')
    end.

Declare Scope rag_scope.
Delimit Scope rag_scope with rag.
Notation "'let*' x := m 'in' k" := (bind m (fun x => k))
  (at level 10, x pattern, m at level 100, k at level 200) : rag_scope.
Local Open Scope rag_scope.

(** One call of a service: the event is logged, then the service runs. *)
Definition call {W A} (ev : Event) (f : W -> option A * W) : M W A :=
  fun s =>
    let (r, w') := f (world s) in
    (match r with Some a => inr a | None => inl BackendError end,
     {| world := w'; trace := trace s ++ [ev] |}).

(** A step that only leaves a mark in the log. *)
Definition log {W} (ev : Event) : M W unit :=
  fun s => (inr tt, {| world := world s; trace := trace s ++ [ev] |}).

(* ================================================================== *)
(** * src/chains/answer_generator.py: format_documents *)

Definition SOURCE_LABEL : pystr := [20986; 20856; 58; 32]%N.   (* "出典: " *)
Definition DOC_LABEL : pystr := [91; 25991; 26360]%N.          (* "[文書" *)
Definition NEWLINE : pystr := [10]%N.                          (* "\n" *)
Definition PART_SEPARATOR : pystr :=                           (* "\n\n---\n\n" *)
  NEWLINE ++ NEWLINE ++ py "---" ++ NEWLINE ++ NEWLINE.

(** [sep.join(parts)] *)
Fixpoint str_join (sep : pystr) (parts : list pystr) : pystr :=
  match parts with
  | [] => []
  | [p] => p
  | p :: rest => p ++ sep ++ str_join sep rest
  end.

(** The body of the loop of [format_documents] for the document
    numbered [i]. *)
Definition format_part (i : Z) (doc : Document) : pystr :=
  let source := source_key doc in
  let page := page_value doc in
  let source_info := SOURCE_LABEL ++ source in
  let source_info :=
    if meta_truthy page
    then source_info ++ py " (p." ++ meta_str page ++ py ")"
    else source_info in
  DOC_LABEL ++ str_of_int i ++ py "] " ++ source_info
    ++ NEWLINE ++ page_content doc.

Definition format_documents (documents : list Document) : pystr :=
  str_join PART_SEPARATOR
    (imap (fun i doc => format_part (Z.of_nat i + 1) doc) documents).

(* ================================================================== *)
(** * src/agent/nodes.py *)

(** "\n\n前回の検索では以下が不足していました: " *)
Definition FEEDBACK_PREFIX : pystr :=
  [10; 10; 21069; 22238; 12398; 26908; 32034; 12391; 12399; 20197; 19979;
   12364; 19981; 36275; 12375; 12390; 12356; 12414; 12375; 12383; 58; 32]%N.

(** "\nこの不足を補う検索クエリを生成してください。" *)
Definition FEEDBACK_SUFFIX : pystr :=
  [10; 12371; 12398; 19981; 36275; 12434; 35036; 12358; 26908; 32034;
   12463; 12456; 12522; 12434; 29983; 25104; 12375; 12390; 12367; 12384;
   12373; 12356; 12290]%N.

(** The f-string of [analyze_query] with [feedback] in the place of
    [state['evaluation_reason']]. *)
Definition feedback_question (question feedback : pystr) : pystr :=
  question ++ FEEDBACK_PREFIX ++ feedback ++ FEEDBACK_SUFFIX.

(** The local [question] of [analyze_query]: what is sent to the query
    analyzer. *)
Definition analyzer_question (state : RAGAgentState) : pystr :=
  if (iteration state >? 0) && str_truthy (evaluation_reason state)
  then feedback_question (query state) (evaluation_reason state)
  else query state.

(** The second loop of [retrieve_documents]: one turn for [doc], on the
    pair of [seen_contents] and [unique_documents]. *)
Definition dedup_turn (acc : gset pystr * list Document) (doc : Document)
  : gset pystr * list Document :=
  let (seen_contents, unique_documents) := acc in
  if decide (page_content doc ∈ seen_contents) then acc
  else ({[ page_content doc ]} ∪ seen_contents, unique_documents ++ [doc]).

Definition unique_by_content (all_documents : list Document)
  : list Document :=
  snd (foldl dedup_turn (∅, []) all_documents).

Section Agent.
Context {W : Type} (caps : Capabilities W).

(** [query_analyzer.invoke({"question": question})]: the model answers
    and its answer is parsed into [SearchQueries]. *)
Definition query_analyzer_invoke (question : pystr)
  : M W SearchQueries.t :=
  let* raw := call (EvQueryAnalyzer question)
                   (structured_llm_queries caps question) in
  match SearchQueries.validate raw with
  | Some result => ret result
  | None => raise ValidationError
  end.

(** [evaluator.invoke({"question": ..., "answer": ...})] *)
Definition evaluator_invoke (question answer_text : pystr)
  : M W EvaluationResult.t :=
  let* raw := call (EvEvaluator question answer_text)
                   (structured_llm_evaluation caps question answer_text) in
  match EvaluationResult.validate raw with
  | Some result => ret result
  | None => raise ValidationError
  end.

(** [answer_generator.invoke({"question": ..., "context": ...})] *)
Definition answer_generator_invoke (question context : pystr)
  : M W pystr :=
  call (EvAnswerGenerator question context)
       (llm_answer caps question context).

(** [vectorstore_manager.similarity_search(query, k=k)] *)
Definition similarity_search (q : pystr) (k : Z) : M W (list Document) :=
  call (EvSimilaritySearch q k) (chroma_similarity_search caps q k).

Definition analyze_query (state : RAGAgentState) : M W Update :=
  let question := analyzer_question state in
  let* result := query_analyzer_invoke question in
  ret {| upd_query := None;
         upd_search_queries := Some (SearchQueries.queries result);
         upd_retrieved_documents := None; upd_answer := None;
         upd_is_sufficient := None; upd_evaluation_reason := None;
         upd_iteration := None |}.

(** The first loop of [retrieve_documents], from the value
    [all_documents] has when the loop reaches [qs]. *)
Fixpoint search_each (qs : list pystr) (all_documents : list Document)
  : M W (list Document) :=
  match qs with
  | [] => ret all_documents
  | q :: rest =>
      let* docs := similarity_search q 3 in
      search_each rest (all_documents ++ docs)
  end.

Definition retrieve_documents (state : RAGAgentState) : M W Update :=
  let* all_documents := search_each (search_queries state) [] in
  let unique_documents := unique_by_content all_documents in
  ret {| upd_query := None; upd_search_queries := None;
         upd_retrieved_documents := Some unique_documents;
         upd_answer := None; upd_is_sufficient := None;
         upd_evaluation_reason := None; upd_iteration := None |}.

Definition generate_answer (state : RAGAgentState) : M W Update :=
  let documents := retrieved_documents state in
  let context := format_documents documents in
  let* answer_text := answer_generator_invoke (query state) context in
  ret {| upd_query := None; upd_search_queries := None;
         upd_retrieved_documents := None; upd_answer := Some answer_text;
         upd_is_sufficient := None; upd_evaluation_reason := None;
         upd_iteration := None |}.

Definition evaluate_answer (state : RAGAgentState) : M W Update :=
  let* result := evaluator_invoke (query state) (answer state) in
  ret {| upd_query := None; upd_search_queries := None;
         upd_retrieved_documents := None; upd_answer := None;
         upd_is_sufficient := Some (EvaluationResult.is_sufficient result);
         upd_evaluation_reason := Some (EvaluationResult.reason result);
         upd_iteration := Some (iteration state + 1) |}.

(** The dict [create_nodes] returns, by node. *)
Definition node_function (n : Node) (state : RAGAgentState) : M W Update :=
  match n with
  | analyze_query_node => analyze_query state
  | retrieve_documents_node => retrieve_documents state
  | generate_answer_node => generate_answer state
  | evaluate_answer_node => evaluate_answer state
  | END => ret no_update
  end.

(* ---------------------------------------------------------------- *)
(** ** src/agent/graph.py: running the compiled graph *)

(** One step of the graph: run the node, merge its update into the
    state, follow the edge. *)
Definition graph_step (n : Node) (state : RAGAgentState)
  : M W (Node * RAGAgentState) :=
  let* _ := log (EvNode n) in
  let* u := node_function n state in
  let state' := apply_update state u in
  match next_node n state' with
  | Some n' => ret (n', state')
  | None => raise GraphKeyError
  end.

(** The graph runs node after node until it reaches [END]; it raises
    when [fuel] steps were not enough. *)
Fixpoint run_graph (fuel : nat) (n : Node) (state : RAGAgentState)
  : M W RAGAgentState :=
  match n with
  | END => ret state
  | _ =>
      match fuel with
      | O => raise GraphRecursionError
      | S fuel' =>
          let* next := graph_step n state in
          run_graph fuel' (fst next) (snd next)
      end
  end.

(** The step limit of a compiled graph when [invoke] is given no
    configuration. *)
Definition RECURSION_LIMIT : nat := 25.

(** [agent.invoke(state)]: the entry point is [analyze_query]. *)
Definition agent_invoke (state : RAGAgentState) : M W RAGAgentState :=
  run_graph RECURSION_LIMIT analyze_query_node state.

End Agent.

(* ================================================================== *)
(** * src/api/schemas.py and src/api/routes.py *)

Module QueryRequest.
Record t := { question : pystr; top_k : Z }.

(** [question] has [min_length=1]; [top_k] has [ge=1] and [le=20]. *)
Definition valid (r : t) : Prop :=
  (1 <= length (question r))%nat /\ 1 <= top_k r <= 20.
End QueryRequest.

Module SourceDocument.
Record t := { content : pystr; source : pystr; page : pystr }.
End SourceDocument.

Module QueryResponse.
Record t := {
  answer : pystr;
  sources : list SourceDocument.t;
  is_sufficient : bool;
  iterations : Z
}.
End QueryResponse.

Module UploadResponse.
Record t := { message : pystr; document_count : Z }.
End UploadResponse.

Record UploadFile := { filename : option pystr; file_bytes : pystr }.

Record Settings := { chunk_size : Z; chunk_overlap : Z }.

(** The state [query] hands to the agent. *)
Definition initial_state (question : pystr) : RAGAgentState :=
  {| query := question; search_queries := []; retrieved_documents := [];
     answer := []; is_sufficient := false; evaluation_reason := [];
     iteration := 0 |}.

(** [c[:200] + "..." if len(c) > 200 else c] *)
Definition excerpt (c : pystr) : pystr :=
  if (200 <? length c)%nat then take 200 c ++ py "..." else c.

Definition source_document (doc : Document) : SourceDocument.t :=
  {| SourceDocument.content := excerpt (page_content doc);
     SourceDocument.source := source_key doc;
     SourceDocument.page := meta_str (page_value doc) |}.

(** One turn of the loop of [query] for [doc], on the pair of
    [seen_sources] and [sources]. *)
Definition source_turn (acc : gset pystr * list SourceDocument.t)
    (doc : Document) : gset pystr * list SourceDocument.t :=
  let (seen_sources, sources) := acc in
  if decide (source_key doc ∈ seen_sources) then acc
  else ({[ source_key doc ]} ∪ seen_sources,
        sources ++ [source_document doc]).

Definition collect_sources (documents : list Document)
  : list SourceDocument.t :=
  snd (foldl source_turn (∅, []) documents).

(** " を正常に処理しました" *)
Definition UPLOAD_DONE : pystr :=
  [32; 12434; 27491; 24120; 12395; 20966; 29702; 12375; 12414; 12375;
   12383]%N.

Definition SUPPORTED_SUFFIXES : list pystr :=
  [py ".pdf"; py ".md"; py ".txt"].

Module routes.
Section Routes.
Context {W : Type} (caps : Capabilities W).

(** [pathlib.Path(name).suffix] and [str.lower], of the Python
    library. *)
Variable path_suffix : pystr -> pystr.
Variable str_lower : pystr -> pystr.

Definition query (request : QueryRequest.t) : M W QueryResponse.t :=
  let* result :=
    agent_invoke caps (initial_state (QueryRequest.question request)) in
  ret {| QueryResponse.answer := answer result;
         QueryResponse.sources :=
           collect_sources (retrieved_documents result);
         QueryResponse.is_sufficient := is_sufficient result;
         QueryResponse.iterations := iteration result |}.

Definition upload_document (settings : Settings) (file : UploadFile)
  : M W UploadResponse.t :=
  let suffix := str_lower (path_suffix (default [] (filename file))) in
  if decide (suffix ∈ SUPPORTED_SUFFIXES) then
    let* _ := call (EvTempFile suffix (file_bytes file))
                   (write_temp_file caps suffix (file_bytes file)) in
    let* documents :=
      if decide (suffix = py ".pdf")
      then call EvLoadPdf (load_pdf caps)
      else call EvLoadMarkdown (load_markdown caps) in
    let* chunks :=
      call (EvSplit documents (chunk_size settings)
              (chunk_overlap settings))
           (split_documents caps documents (chunk_size settings)
              (chunk_overlap settings)) in
    let* _ := call (EvAddDocuments chunks) (add_documents caps chunks) in
    let* _ := call EvUnlink (unlink_temp_file caps) in
    ret {| UploadResponse.message :=
             default (py "None") (filename file) ++ UPLOAD_DONE;
           UploadResponse.document_count := Z.of_nat (length chunks) |}
  else raise (HTTPException 400).

End Routes.
End routes.

(* ================================================================== *)
(** * src/api/routes.py: health_check *)

(** [prefix] is how [text] begins. *)
Fixpoint starts_with (prefix text : pystr) : bool :=
  match prefix, text with
  | [], _ => true
  | _ :: _, [] => false
  | c :: prefix', d :: text' => (c =? d)%N && starts_with prefix' text'
  end.

(** [needle in text], for two [str]. *)
Fixpoint str_contains (needle text : pystr) : bool :=
  starts_with needle text ||
  match text with
  | [] => false
  | _ :: rest => str_contains needle rest
  end.

Module HealthResponse.
Record t := {
  status : pystr;
  ollama_status : pystr;
  vectorstore_status : pystr
}.
End HealthResponse.

(** What [health_check] asks of the outside: the status code of the
    GET on the Ollama server, and the number of entries the store
    counts.  [None] is a call that raised. *)
Record HealthServices (W : Type) := {
  httpx_get_tags : W -> option Z * W;
  collection_count : W -> option Z * W
}.
Arguments httpx_get_tags {W}.
Arguments collection_count {W}.

(** "error: 接続できません" *)
Definition ERROR_STATUS_CODE : pystr :=
  [101; 114; 114; 111; 114; 58; 32; 25509; 32154; 12391; 12365; 12414;
   12379; 12435]%N.

(** "error: Ollamaサーバーに接続できません" *)
Definition ERROR_OLLAMA : pystr :=
  [101; 114; 114; 111; 114; 58; 32; 79; 108; 108; 97; 109; 97; 12469;
   12540; 12496; 12540; 12395; 25509; 32154; 12391; 12365; 12414; 12379;
   12435]%N.

(** "error: ベクトルストアにアクセスできません" *)
Definition ERROR_VECTORSTORE : pystr :=
  [101; 114; 114; 111; 114; 58; 32; 12505; 12463; 12488; 12523; 12473;
   12488; 12450; 12395; 12450; 12463; 12475; 12473; 12391; 12365; 12414;
   12379; 12435]%N.

(** [health_check]: each of the two [try] blocks turns an exception
    into a status text, so nothing is raised. *)
Definition health_check {W : Type} (svc : HealthServices W) (w : W)
  : HealthResponse.t * W :=
  let (response, w1) := httpx_get_tags svc w in
  let ollama_status :=
    match response with
    | Some status_code =>
        if negb (status_code =? 200) then ERROR_STATUS_CODE else py "ok"
    | None => ERROR_OLLAMA
    end in
  let (counted, w2) := collection_count svc w1 in
  let vectorstore_status :=
    match counted with
    | Some count => py "ok (" ++ str_of_int count ++ py " documents)"
    | None => ERROR_VECTORSTORE
    end in
  let overall :=
    if negb (str_contains (py "error") ollama_status)
       && negb (str_contains (py "error") vectorstore_status)
    then py "healthy" else py "unhealthy" in
  ({| HealthResponse.status := overall;
      HealthResponse.ollama_status := ollama_status;
      HealthResponse.vectorstore_status := vectorstore_status |}, w2).

(* ================================================================== *)
(** * src/rag/document_loader.py: load_directory *)

(** The file system and the loaders behind [load_directory]:
    [sorted(Path(dir).rglob("*"))] as the list of the paths, and the
    two loaders at a path.  [None] is a call that raised. *)
Record Loaders (W : Type) := {
  sorted_rglob : pystr -> W -> option (list pystr) * W;
  load_pdf_path : pystr -> W -> option (list Document) * W;
  load_markdown_path : pystr -> W -> option (list Document) * W
}.
Arguments sorted_rglob {W}.
Arguments load_pdf_path {W}.
Arguments load_markdown_path {W}.

Section LoadDirectory.
Context {W : Type} (fs : Loaders W).
Variable path_suffix : pystr -> pystr.
Variable str_lower : pystr -> pystr.

(** The loop of [load_directory], from the value [documents] has when
    the loop reaches [paths]. *)
Fixpoint load_each (paths : list pystr) (documents : list Document) (w : W)
  : option (list Document) * W :=
  match paths with
  | [] => (Some documents, w)
  | file_path :: rest =>
      if decide (str_lower (path_suffix file_path) = py ".pdf") then
        match load_pdf_path fs file_path w with
        | (Some docs, w') => load_each rest (documents ++ docs) w'
        | (None, w') => (None, w')
        end
      else if decide (str_lower (path_suffix file_path)
                        ∈ [py ".md"; py ".txt"]) then
        match load_markdown_path fs file_path w with
        | (Some docs, w') => load_each rest (documents ++ docs) w'
        | (None, w') => (None, w')
        end
      else load_each rest documents w
  end.

Definition load_directory (dir_path : pystr) (w : W)
  : option (list Document) * W :=
  match sorted_rglob fs dir_path w with
  | (Some paths, w1) => load_each paths [] w1
  | (None, w1) => (None, w1)
  end.
End LoadDirectory.

(* ================================================================== *)
(** * scripts/ingest.py: main *)

(** "=== ドキュメント投入スクリプト ===" *)
Definition INGEST_TITLE : pystr :=
  [61; 61; 61; 32; 12489; 12461; 12517; 12513; 12531; 12488; 25237;
   20837; 12473; 12463; 12522; 12503; 12488; 32; 61; 61; 61]%N.

(** "対象ディレクトリ: " *)
Definition INGEST_DIRECTORY : pystr :=
  [23550; 35937; 12487; 12451; 12524; 12463; 12488; 12522; 58; 32]%N.

(** "ベクトルDB保存先: " *)
Definition INGEST_STORE : pystr :=
  [12505; 12463; 12488; 12523; 68; 66; 20445; 23384; 20808; 58; 32]%N.

(** "Embeddingモデル: " *)
Definition INGEST_MODEL : pystr :=
  [69; 109; 98; 101; 100; 100; 105; 110; 103; 12514; 12487; 12523; 58;
   32]%N.

(** "[1/3] ドキュメントを読み込み中..." *)
Definition INGEST_STEP_1 : pystr :=
  [91; 49; 47; 51; 93; 32; 12489; 12461; 12517; 12513; 12531; 12488;
   12434; 35501; 12415; 36796; 12415; 20013; 46; 46; 46]%N.

(** "エラー: ドキュメントが見つかりませんでした。" *)
Definition INGEST_NOTHING : pystr :=
  [12456; 12521; 12540; 58; 32; 12489; 12461; 12517; 12513; 12531; 12488;
   12364; 35211; 12388; 12363; 12426; 12414; 12379; 12435; 12391; 12375;
   12383; 12290]%N.

(** " にPDFまたはMarkdownファイルを配置してください。" *)
Definition INGEST_HINT : pystr :=
  [32; 12395; 80; 68; 70; 12414; 12383; 12399; 77; 97; 114; 107; 100;
   111; 119; 110; 12501; 12449; 12452; 12523; 12434; 37197; 32622; 12375;
   12390; 12367; 12384; 12373; 12356; 12290]%N.

(** "  → " *)
Definition INGEST_ARROW : pystr :=
  [32; 32; 8594; 32]%N.

(** " 件のドキュメントを読み込みました" *)
Definition INGEST_LOADED : pystr :=
  [32; 20214; 12398; 12489; 12461; 12517; 12513; 12531; 12488; 12434;
   35501; 12415; 36796; 12415; 12414; 12375; 12383]%N.

(** "[2/3] チャンクに分割中..." *)
Definition INGEST_STEP_2 : pystr :=
  [91; 50; 47; 51; 93; 32; 12481; 12515; 12531; 12463; 12395; 20998;
   21106; 20013; 46; 46; 46]%N.

(** " 個のチャンクに分割しました" *)
Definition INGEST_SPLIT : pystr :=
  [32; 20491; 12398; 12481; 12515; 12531; 12463; 12395; 20998; 21106;
   12375; 12414; 12375; 12383]%N.

(** "[3/3] ベクトルDBに投入中（Embedding生成に時間がかかります）..." *)
Definition INGEST_STEP_3 : pystr :=
  [91; 51; 47; 51; 93; 32; 12505; 12463; 12488; 12523; 68; 66; 12395;
   25237; 20837; 20013; 65288; 69; 109; 98; 101; 100; 100; 105; 110; 103;
   29983; 25104; 12395; 26178; 38291; 12364; 12363; 12363; 12426; 12414;
   12377; 65289; 46; 46; 46]%N.

(** "  → ベクトルDBへの投入が完了しました" *)
Definition INGEST_STORED : pystr :=
  [32; 32; 8594; 32; 12505; 12463; 12488; 12523; 68; 66; 12408; 12398;
   25237; 20837; 12364; 23436; 20102; 12375; 12414; 12375; 12383]%N.

(** "完了! APIサーバーを起動して質問を試してみてください:" *)
Definition INGEST_DONE : pystr :=
  [23436; 20102; 33; 32; 65; 80; 73; 12469; 12540; 12496; 12540; 12434;
   36215; 21205; 12375; 12390; 36074; 21839; 12434; 35430; 12375; 12390;
   12415; 12390; 12367; 12384; 12373; 12356; 58]%N.

(** "  uvicorn src.api.main:app --reload" *)
Definition INGEST_COMMAND : pystr :=
  [32; 32; 117; 118; 105; 99; 111; 114; 110; 32; 115; 114; 99; 46; 97;
   112; 105; 46; 109; 97; 105; 110; 58; 97; 112; 112; 32; 45; 45; 114;
   101; 108; 111; 97; 100]%N.

(** What [main] needs beside the loaders: the splitter and the
    creation of the store. *)
Record IngestServices (W : Type) := {
  ingest_loaders : Loaders W;
  ingest_split :
    list Document -> Z -> Z -> W -> option (list Document) * W;
  create_from_documents : list Document -> W -> option unit * W
}.
Arguments ingest_loaders {W}.
Arguments ingest_split {W}.
Arguments create_from_documents {W}.

Section Ingest.
Context {W : Type} (svc : IngestServices W).
Variable path_suffix : pystr -> pystr.
Variable str_lower : pystr -> pystr.

(** [main], with the lines it prints.  [sample_dir] is the directory it
    reads, and [persist_directory] and [embedding_model] are the two
    texts of the settings that it prints.  The first component is
    [None] when a call raised; the lines printed before are kept. *)
Definition ingest_main (settings : Settings)
    (persist_directory embedding_model sample_dir : pystr) (w : W)
  : (option unit * list pystr) * W :=
  let out :=
    [INGEST_TITLE; INGEST_DIRECTORY ++ sample_dir;
     INGEST_STORE ++ persist_directory; INGEST_MODEL ++ embedding_model;
     []; INGEST_STEP_1] in
  match load_directory (ingest_loaders svc) path_suffix str_lower
          sample_dir w with
  | (None, w1) => ((None, out), w1)
  | (Some [], w1) =>
      ((Some tt, out ++ [INGEST_NOTHING; sample_dir ++ INGEST_HINT]), w1)
  | (Some documents, w1) =>
      let out :=
        out ++ [INGEST_ARROW ++ str_of_int (Z.of_nat (length documents))
                  ++ INGEST_LOADED;
                INGEST_STEP_2] in
      match ingest_split svc documents (chunk_size settings)
              (chunk_overlap settings) w1 with
      | (None, w2) => ((None, out), w2)
      | (Some chunks, w2) =>
          let out :=
            out ++ [INGEST_ARROW ++ str_of_int (Z.of_nat (length chunks))
                      ++ INGEST_SPLIT;
                    INGEST_STEP_3] in
          match create_from_documents svc chunks w2 with
          | (None, w3) => ((None, out), w3)
          | (Some _, w3) =>
              ((Some tt,
                out ++ [INGEST_STORED; []; INGEST_DONE; INGEST_COMMAND]),
               w3)
          end
      end
  end.
End Ingest.

(* ================================================================== *)
(** * The specification's words, as definitions to compare with *)

(** "Keeping the first occurrence and dropping later duplicates": the
    head of the sequence stays, and every later element with the key of
    the head goes. *)
Fixpoint keep_first_by {A K : Type} `{EqDecision K} (key : A -> K)
    (l : list A) : list A :=
  match l with
  | [] => []
  | x :: rest => x :: filter (fun y => key y <> key x) (keep_first_by key rest)
  end.

(** "For each query in order, call [search(query, k)]": the results of
    the calls, one list per query, and the world they leave. *)
Inductive searched {W : Type} (caps : Capabilities W) (k : Z)
  : list pystr -> W -> list (list Document) -> W -> Prop :=
| searched_nil w : searched caps k [] w [] w
| searched_cons q qs w docs w' results w'' :
    chroma_similarity_search caps q k w = (Some docs, w') ->
    searched caps k qs w' results w'' ->
    searched caps k (q :: qs) w (docs :: results) w''.

(** The nodes a log went through, in order. *)
Definition nodes_of (t : list Event) : list Node :=
  omap (fun e => match e with EvNode n => Some n | _ => None end) t.

(** How many times a log went through node [n]. *)
Definition passes_through (n : Node) (t : list Event) : nat :=
  length (filter (fun m => m = n) (nodes_of t)).

(** The searches of a log, in order. *)
Definition searches_of (t : list Event) : list (pystr * Z) :=
  omap (fun e => match e with
                 | EvSimilaritySearch q k => Some (q, k)
                 | _ => None
                 end) t.

(** The questions a log sent to the query analyzer, in order. *)
Definition analyzer_questions_of (t : list Event) : list pystr :=
  omap (fun e => match e with EvQueryAnalyzer q => Some q | _ => None end) t.

(** The shape the two deduplicating loops of the program share: a set
    of the keys seen so far and the list built so far. *)
Definition first_seen_turn {A B K : Type} `{Countable K} (key : A -> K)
    (emit : A -> B) (acc : gset K * list B) (x : A) : gset K * list B :=
  let (seen, out) := acc in
  if decide (key x ∈ seen) then acc
  else ({[ key x ]} ∪ seen, out ++ [emit x]).

(** A computation only adds to the end of the log, and what it adds
    satisfies [P]. *)
Definition appends {W A : Type} (P : Event -> Prop) (m : M W A) : Prop :=
  forall s, exists t, trace (snd (m s)) = trace s ++ t /\ Forall P t.

Definition is_service_call (e : Event) : Prop :=
  match e with EvNode _ => False | _ => True end.

Definition searches_with_k3 (e : Event) : Prop :=
  match e with EvSimilaritySearch _ k => k = 3 | _ => True end.

(** A computation raises only exceptions that satisfy [E]. *)
Definition raises_only {W A : Type} (E : Error -> Prop) (m : M W A) : Prop :=
  forall s e s', m s = (inl e, s') -> E e.

(** The world once the graph has logged that it enters node [n]. *)
Definition logged {W : Type} (n : Node) (s : Sys W) : Sys W :=
  {| world := world s; trace := trace s ++ [EvNode n] |}.

(** A point of a run: the node about to run, the state it will get,
    and the world. *)
Record Config (W : Type) := {
  at_node : Node;
  at_state : RAGAgentState;
  at_sys : Sys W
}.
Arguments at_node {W}.
Arguments at_state {W}.
Arguments at_sys {W}.

(** One step of a run that raises nothing. *)
Definition steps_to {W : Type} (caps : Capabilities W) (c c' : Config W)
  : Prop :=
  at_node c <> END /\
  graph_step caps (at_node c) (at_state c) (at_sys c)
  = (inr (at_node c', at_state c'), at_sys c').

Definition reaches {W : Type} (caps : Capabilities W)
  : Config W -> Config W -> Prop :=
  rtc (steps_to caps).

(** The place of a node in a pass. *)
Definition pass_position (n : Node) : nat :=
  match n with
  | analyze_query_node => 0
  | retrieve_documents_node => 1
  | generate_answer_node => 2
  | evaluate_answer_node => 3
  | END => 4
  end.

(** The evaluations a run still has before it, the one of the pass it
    is in included. *)
Definition evaluations_left (state : RAGAgentState) : nat :=
  Nat.max 1 (Z.to_nat (MAX_ITERATIONS - iteration state)).

(** The steps a run from node [n] in [state] takes at most. *)
Definition steps_left (n : Node) (state : RAGAgentState) : nat :=
  match n with
  | END => 0
  | _ => (4 - pass_position n) + 4 * (evaluations_left state - 1)
  end.

(** The times a run from node [n] in [state] goes through [m] at most. *)
Definition visits_left (m n : Node) (state : RAGAgentState) : nat :=
  match n with
  | END => 0
  | _ => if (pass_position n <=? pass_position m)%nat
         then evaluations_left state
         else evaluations_left state - 1
  end.

(** The calls of the evaluator in a log, in order: the question and
    the answer judged. *)
Definition evaluations_of (t : list Event) : list (pystr * pystr) :=
  omap (fun e => match e with
                 | EvEvaluator q a => Some (q, a)
                 | _ => None
                 end) t.

Definition is_llm_call (e : Event) : Prop :=
  match e with
  | EvQueryAnalyzer _ | EvAnswerGenerator _ _ | EvEvaluator _ _ => True
  | _ => False
  end.

Global Instance is_llm_call_dec (e : Event) : Decision (is_llm_call e).
Proof. destruct e; cbn; apply _. Defined.

(** How many times a log called the language model. *)
Definition llm_calls (t : list Event) : nat :=
  length (filter is_llm_call t).

(** How many of [documents] have the text [text]. *)
Definition count_text (text : pystr) (documents : list Document) : nat :=
  length (filter (fun d => page_content d = text) documents).

(** What node [n], run on [state], may ask of the services. *)
Definition asks (n : Node) (state : RAGAgentState) (e : Event) : Prop :=
  match n, e with
  | analyze_query_node, EvQueryAnalyzer q => q = analyzer_question state
  | retrieve_documents_node, EvSimilaritySearch q k =>
      k = 3 /\ q ∈ search_queries state
  | generate_answer_node, EvAnswerGenerator q c =>
      q = query state /\ c = format_documents (retrieved_documents state)
  | evaluate_answer_node, EvEvaluator q a =>
      q = query state /\ a = answer state
  | _, _ => False
  end.

(** A call of the model is about [question]: the generator and the
    evaluator get it as it is, the analyzer gets a text that begins
    with it. *)
Definition about_question (question : pystr) (e : Event) : Prop :=
  match e with
  | EvQueryAnalyzer q => question `prefix_of` q
  | EvAnswerGenerator q _ => q = question
  | EvEvaluator q _ => q = question
  | _ => True
  end.

(** The most calls node [n], run on [state], makes. *)
Definition calls_at_most (n : Node) (state : RAGAgentState) : nat :=
  match n with
  | retrieve_documents_node => length (search_queries state)
  | END => 0
  | _ => 1
  end.

(** The suffixes [load_directory] has a loader for. *)
Definition has_loader (path_suffix str_lower : pystr -> pystr)
    (file_path : pystr) : Prop :=
  str_lower (path_suffix file_path) ∈ SUPPORTED_SUFFIXES.

Global Instance has_loader_dec path_suffix str_lower file_path :
  Decision (has_loader path_suffix str_lower file_path).
Proof. unfold has_loader. apply _. Defined.

(** What a run over the sorted paths of a directory is to do, path by
    path, when every load succeeds: a path with the lowered suffix
    ".pdf" goes to the loader of PDF files and a path with ".md" or
    ".txt" to the loader of text files, each once and in the order of
    the paths, and what they give is concatenated in that order; any
    other path is passed over without a call. *)
Inductive loaded_in_order {W : Type} (fs : Loaders W)
    (path_suffix str_lower : pystr -> pystr)
  : list pystr -> W -> list Document -> W -> Prop :=
| loaded_nil (w : W) :
    loaded_in_order fs path_suffix str_lower [] w [] w
| loaded_skip file_path rest (w : W) out (w' : W) :
    ~ has_loader path_suffix str_lower file_path ->
    loaded_in_order fs path_suffix str_lower rest w out w' ->
    loaded_in_order fs path_suffix str_lower (file_path :: rest) w out w'
| loaded_pdf file_path rest (w : W) docs (w1 : W) out (w' : W) :
    str_lower (path_suffix file_path) = py ".pdf" ->
    load_pdf_path fs file_path w = (Some docs, w1) ->
    loaded_in_order fs path_suffix str_lower rest w1 out w' ->
    loaded_in_order fs path_suffix str_lower (file_path :: rest) w
      (docs ++ out) w'
| loaded_markdown file_path rest (w : W) docs (w1 : W) out (w' : W) :
    str_lower (path_suffix file_path) ∈ [py ".md"; py ".txt"] ->
    load_markdown_path fs file_path w = (Some docs, w1) ->
    loaded_in_order fs path_suffix str_lower rest w1 out w' ->
    loaded_in_order fs path_suffix str_lower (file_path :: rest) w
      (docs ++ out) w'.

(** The loader of [file_path] raises in the world [w]. *)
Definition load_raises {W : Type} (fs : Loaders W)
    (path_suffix str_lower : pystr -> pystr) (file_path : pystr)
    (w w' : W) : Prop :=
  (str_lower (path_suffix file_path) = py ".pdf" /\
   load_pdf_path fs file_path w = (None, w')) \/
  (str_lower (path_suffix file_path) ∈ [py ".md"; py ".txt"] /\
   load_markdown_path fs file_path w = (None, w')).

(** The point a run is at after [k] steps, or the point at which it
    stopped before: at [END], or where a step raised. *)
Fixpoint config_after {W : Type} (caps : Capabilities W) (k : nat)
    (c : Config W) : Config W :=
  match k with
  | O => c
  | S k' =>
      match at_node c with
      | END => c
      | _ =>
          match graph_step caps (at_node c) (at_state c) (at_sys c) with
          | (inr (n', state'), s') =>
              config_after caps k'
                {| at_node := n'; at_state := state'; at_sys := s' |}
          | (inl _, _) => c
          end
      end
  end.

(** Where the run of a request starts. *)
Definition entry {W : Type} (request : QueryRequest.t) (s : Sys W)
  : Config W :=
  {| at_node := analyze_query_node;
     at_state := initial_state (QueryRequest.question request);
     at_sys := s |}.

(* ================================================================== *)
(** * Concrete services, for the examples *)

Module Demo.
Definition alpha : pystr := py "alpha".
Definition beta : pystr := py "beta".

Definition doc (text src : string) : Document :=
  {| page_content := py text;
     metadata := {| md_source := Some (py src); md_page := None |} |}.

Definition long_text : pystr := replicate 250 120%N.

Definition long_doc : Document :=
  {| page_content := long_text;
     metadata := {| md_source := Some (py "c.pdf");
                    md_page := Some (MInt 4) |} |}.

(** The store answers [alpha] with two chunks and [beta] with three,
    the first of which it also gave for [alpha]. *)
Definition search (q : pystr) (k : Z) : list Document :=
  if decide (q = alpha) then [doc "one" "a.md"; doc "two" "b.md"]
  else if decide (q = beta)
       then [doc "two" "b.md"; doc "three" "a.md"; long_doc]
       else [].

Definition evaluation (verdict : bool) : RawEvaluationResult :=
  {| raw_is_sufficient := Some verdict;
     raw_score := Some (if verdict then 9 # 10 else 2 # 10)%Q;
     raw_reason := Some (py "no figures");
     raw_missing_info := Some (py "the release date") |}.

(** The world counts the evaluations made so far; the evaluator's
    verdict at each of them is given by [verdicts], and the analyzer
    answers with [raw]. *)
Definition caps (raw : RawSearchQueries) (verdicts : nat -> bool)
  : Capabilities nat :=
  {| structured_llm_queries := fun _ w => (Some raw, w);
     structured_llm_evaluation :=
       fun _ _ w => (Some (evaluation (verdicts w)), S w);
     llm_answer := fun _ _ w => (Some (py "draft"), w);
     chroma_similarity_search := fun q k w => (Some (search q k), w);
     write_temp_file := fun _ _ w => (Some tt, w);
     load_pdf := fun w => (Some [long_doc], w);
     load_markdown := fun w => (Some [doc "one" "a.md"], w);
     split_documents :=
       fun docs _ _ w => (Some (docs ++ docs), w);
     add_documents := fun _ w => (Some tt, w);
     unlink_temp_file := fun w => (Some tt, w) |}.

Definition two_queries : RawSearchQueries :=
  {| raw_queries := Some [alpha; beta]; raw_intent := Some (py "look up") |}.

Definition six_queries : RawSearchQueries :=
  {| raw_queries := Some [alpha; beta; alpha; beta; alpha; beta];
     raw_intent := Some (py "look up") |}.

Definition never : nat -> bool := fun _ => false.
Definition at_once : nat -> bool := fun _ => true.

Definition start : Sys nat := {| world := 0%nat; trace := [] |}.

Definition asked : RAGAgentState :=
{| query := py "q"; search_queries := [alpha; beta];
   retrieved_documents := [doc "zero" "z.md"]; answer := py "draft";
   is_sufficient := false; evaluation_reason := []; iteration := 1 |}.

(** A run about to retrieve, and the same run one step later. *)
Definition retrieving : Config nat :=
{| at_node := retrieve_documents_node; at_state := asked; at_sys := start |}.

Definition retrieved : Config nat :=
{| at_node := generate_answer_node;
   at_state :=
     {| query := py "q"; search_queries := [alpha; beta];
        retrieved_documents :=
          [doc "zero" "z.md"; doc "one" "a.md"; doc "two" "b.md";
           doc "three" "a.md"; long_doc];
        answer := py "draft"; is_sufficient := false;
        evaluation_reason := []; iteration := 1 |};
   at_sys :=
     {| world := 0%nat;
        trace := [EvNode retrieve_documents_node;
                  EvSimilaritySearch alpha 3; EvSimilaritySearch beta 3] |}
|}.

(** What [query] answers when the evaluator is satisfied at once: the
    four chunks retrieved come from three sources. *)
Definition response : QueryResponse.t :=
{| QueryResponse.answer := py "draft";
   QueryResponse.sources :=
     [ {| SourceDocument.content := py "one";
          SourceDocument.source := py "a.md";
          SourceDocument.page := [] |};
       {| SourceDocument.content := py "two";
          SourceDocument.source := py "b.md";
          SourceDocument.page := [] |};
       {| SourceDocument.content := replicate 200 120%N ++ py "...";
          SourceDocument.source := py "c.pdf";
          SourceDocument.page := py "4" |} ];
   QueryResponse.is_sufficient := true;
   QueryResponse.iterations := 1 |}.

Definition request (k : Z) : QueryRequest.t :=
{| QueryRequest.question := py "q"; QueryRequest.top_k := k |}.

(** The evaluation of [asked] by an evaluator that is not satisfied,
    and the state and world it leaves. *)
Definition verdict : EvaluationResult.t :=
{| EvaluationResult.is_sufficient := false;
   EvaluationResult.score := (2 # 10)%Q;
   EvaluationResult.reason := py "no figures";
   EvaluationResult.missing_info := py "the release date" |}.



Definition settings : Settings :=
{| chunk_size := 1000; chunk_overlap := 200 |}.

Definition upload (name : string) : UploadFile :=
{| filename := Some (py name); file_bytes := py "text" |}.

(** A state that already holds the chunk "two" and is about to
    retrieve it once more. *)
Definition asked_again : RAGAgentState :=
{| query := py "q"; search_queries := [alpha; beta];
   retrieved_documents := [doc "two" "b.md"]; answer := py "draft";
   is_sufficient := false; evaluation_reason := py "no figures";
   iteration := 1 |}.

(** The Ollama server answers with [code] and the store counts
    [count]; [None] is a call that raises. *)
Definition health (code count : option Z) : HealthServices nat :=
{| httpx_get_tags := fun w => (code, S w);
   collection_count := fun w => (count, S w) |}.

(** A directory of four files, one of them a Word document.  The world
    counts the files loaded. *)
Definition listing : list pystr :=
  [py "docs/a.md"; py "docs/b.PDF"; py "docs/c.docx"; py "docs/notes.txt"].

Definition files (paths : list pystr) : Loaders nat :=
{| sorted_rglob := fun _ w => (Some paths, w);
   load_pdf_path :=
     fun path w =>
       (Some [ {| page_content := py "pdf";
                  metadata := {| md_source := Some path;
                                 md_page := Some (MInt 0) |} |} ], S w);
   load_markdown_path :=
     fun path w =>
       (Some [ {| page_content := py "text";
                  metadata := {| md_source := Some path;
                                 md_page := None |} |} ], S w) |}.

Definition ingest (paths : list pystr) : IngestServices nat :=
{| ingest_loaders := files paths;
   ingest_split := fun docs _ _ w => (Some (docs ++ docs), (100 + w)%nat);
   create_from_documents := fun _ w => (Some tt, (1000 + w)%nat) |}.

(** The services of [caps] with a vector store that cannot be
    reached. *)
Definition store_down : Capabilities nat :=
{| structured_llm_queries := fun _ w => (Some two_queries, w);
   structured_llm_evaluation :=
     fun _ _ w => (Some (evaluation false), S w);
   llm_answer := fun _ _ w => (Some (py "draft"), w);
   chroma_similarity_search := fun _ _ w => (None, w);
   write_temp_file := fun _ _ w => (Some tt, w);
   load_pdf := fun w => (None, S w);
   load_markdown := fun w => (Some [doc "one" "a.md"], w);
   split_documents := fun docs _ _ w => (None, S w);
   add_documents := fun _ w => (Some tt, w);
   unlink_temp_file := fun w => (Some tt, w) |}.

(** An evaluation with a score above 1. *)
Definition overrated : RawEvaluationResult :=
{| raw_is_sufficient := Some true;
   raw_score := Some (3 # 2)%Q;
   raw_reason := Some (py "excellent");
   raw_missing_info := None |}.

(** The services of [caps] with an evaluator that sends [overrated]. *)
Definition overrating : Capabilities nat :=
{| structured_llm_queries := fun _ w => (Some two_queries, w);
   structured_llm_evaluation := fun _ _ w => (Some overrated, S w);
   llm_answer := fun _ _ w => (Some (py "draft"), w);
   chroma_similarity_search := fun q k w => (Some (search q k), w);
   write_temp_file := fun _ _ w => (Some tt, w);
   load_pdf := fun w => (Some [long_doc], w);
   load_markdown := fun w => (Some [doc "one" "a.md"], w);
   split_documents := fun docs _ _ w => (Some (docs ++ docs), w);
   add_documents := fun _ w => (Some tt, w);
   unlink_temp_file := fun w => (Some tt, w) |}.

(** What [query] answers when the evaluator is never satisfied. *)
Definition response_after_three : QueryResponse.t :=
{| QueryResponse.answer := py "draft";
   QueryResponse.sources := QueryResponse.sources response;
   QueryResponse.is_sufficient := false;
   QueryResponse.iterations := 3 |}.

(** [asked_again] after the retrieval step. *)
Definition retrieved_again : RAGAgentState :=
{| query := py "q"; search_queries := [alpha; beta];
   retrieved_documents :=
     [doc "two" "b.md"; doc "one" "a.md"; doc "two" "b.md";
      doc "three" "a.md"; long_doc];
   answer := py "draft"; is_sufficient := false;
   evaluation_reason := py "no figures"; iteration := 1 |}.

(** POSIX paths in ASCII, as [pathlib] reads them.  The name of a
    path is its last component, the components being what stands
    between the slashes, the empty ones and "." left out. *)
Fixpoint split_on (sep : N) (t cur : pystr) : list pystr :=
  match t with
  | [] => [cur]
  | c :: rest =>
      if (c =? sep)%N then cur :: split_on sep rest []
      else split_on sep rest (cur ++ [c])
  end.

Definition path_name (path : pystr) : pystr :=
  default []
    (last (filter (fun part => part <> [] /\ part <> py ".")
             (split_on 47 path []))).

(** [name.rfind('.')] *)
Fixpoint rfind_dot (name : pystr) : option nat :=
  match name with
  | [] => None
  | c :: rest =>
      match rfind_dot rest with
      | Some i => Some (S i)
      | None => if (c =? 46)%N then Some 0%nat else None
      end
  end.

(** The suffix of a path: the name from its last dot on, when that dot
    is neither the first nor the last character of the name. *)
Definition path_suffix (path : pystr) : pystr :=
  let name := path_name path in
  match rfind_dot name with
  | Some i =>
      if (0 <? i)%nat && (i <? length name - 1)%nat then drop i name else []
  | None => []
  end.

(** The letters A to Z lowered. *)
Definition str_lower (t : pystr) : pystr :=
  (fun c => if (65 <=? c)%N && (c <=? 90)%N then (c + 32)%N else c) <$> t.
End Demo.

(* ================================================================== *)
(** * The model on small inputs *)

Example str_of_int_examples :
  str_of_int 0 = py "0" /\ str_of_int 42 = py "42" /\
  str_of_int (-12) = py "-12".
Proof. repeat split. Qed.

(** Two chunks, the second from page 4 of a PDF (page 0 is falsy and
    would not be shown). *)
Example format_documents_example :
  format_documents
    [ {| page_content := py "A";
         metadata := {| md_source := Some (py "a.md"); md_page := None |} |};
      {| page_content := py "B";
         metadata := {| md_source := None; md_page := Some (MInt 4) |} |} ]
  = DOC_LABEL ++ py "1] " ++ SOURCE_LABEL ++ py "a.md" ++ NEWLINE ++ py "A"
    ++ PART_SEPARATOR
    ++ DOC_LABEL ++ py "2] " ++ SOURCE_LABEL ++ UNKNOWN_SOURCE ++ py " (p.4)"
    ++ NEWLINE ++ py "B".
Proof. reflexivity. Qed.

(** Deduplication by text keeps the first of two chunks with one text,
    whatever their sources. *)
Example unique_by_content_example :
  unique_by_content
    [Demo.doc "one" "a.md"; Demo.doc "two" "b.md"; Demo.doc "one" "c.md"]
  = [Demo.doc "one" "a.md"; Demo.doc "two" "b.md"].
Proof. vm_compute. reflexivity. Qed.

Example excerpt_examples :
  excerpt (replicate 200 120%N) = replicate 200 120%N /\
  excerpt (replicate 201 120%N) = replicate 200 120%N ++ py "...".
Proof. split; vm_compute; reflexivity. Qed.

Example suffix_examples :
  Demo.str_lower (Demo.path_suffix (py "Report.PDF")) = py ".pdf" /\
  Demo.str_lower (Demo.path_suffix (py "a.tar.gz")) = py ".gz" /\
  Demo.str_lower (Demo.path_suffix (py ".bashrc")) = [] /\
  Demo.str_lower (Demo.path_suffix (py "README")) = [] /\
  Demo.path_suffix (py "docs/.md") = [] /\
  Demo.path_suffix (py "a.b.") = [] /\
  Demo.path_suffix (py "v1.2/notes.txt") = py ".txt" /\
  Demo.path_suffix (py "v1.2/notes") = [] /\
  Demo.path_suffix (py "x.md/") = py ".md" /\
  Demo.path_suffix [] = [].
Proof. repeat split. Qed.

(* ================================================================== *)
(** * The loop decision *)

(** C1: on every state [should_retry] returns "end" when
    [is_sufficient] holds, whatever the iteration; returns "end" when
    [iteration >= MAX_ITERATIONS = 3], whatever [is_sufficient]; and
    returns "retry" in every other case. *)
Theorem should_retry_decision (state : RAGAgentState) :
  MAX_ITERATIONS = 3 /\
  (is_sufficient state = true -> should_retry state = "end") /\
  (iteration state >= MAX_ITERATIONS -> should_retry state = "end") /\
  (is_sufficient state = false -> iteration state < MAX_ITERATIONS ->
   should_retry state = "retry").
Proof.
  unfold should_retry, MAX_ITERATIONS.
  split; [reflexivity|].
  destruct (is_sufficient state); destruct (Z.geb_spec (iteration state) 3);
    repeat split; intros; try reflexivity; try discriminate; lia.
Qed.

(** The four scenarios of the test suite. *)
Lemma should_retry_decision_witness :
  should_retry {| query := py "q"; search_queries := [];
                  retrieved_documents := []; answer := py "a";
                  is_sufficient := true; evaluation_reason := [];
                  iteration := 1 |} = "end" /\
  should_retry {| query := py "q"; search_queries := [];
                  retrieved_documents := []; answer := py "a";
                  is_sufficient := false; evaluation_reason := [];
                  iteration := 1 |} = "retry" /\
  should_retry {| query := py "q"; search_queries := [];
                  retrieved_documents := []; answer := py "a";
                  is_sufficient := false; evaluation_reason := [];
                  iteration := MAX_ITERATIONS |} = "end" /\
  should_retry {| query := py "q"; search_queries := [];
                  retrieved_documents := []; answer := py "a";
                  is_sufficient := false; evaluation_reason := [];
                  iteration := 0 |} = "retry".
Proof.
  split; [|split; [|split]].
  - apply (proj1 (proj2 (should_retry_decision _))). reflexivity.
  - apply (proj2 (proj2 (proj2 (should_retry_decision _)))); reflexivity.
  - apply (proj1 (proj2 (proj2 (should_retry_decision _)))). discriminate.
  - apply (proj2 (proj2 (proj2 (should_retry_decision _)))); reflexivity.
Defined.

(* ================================================================== *)
(** * Keeping first occurrences *)

Section KeepFirst.
Context {A K : Type} `{Countable K} (key : A -> K).

(** A filter that looks at keys only commutes with [keep_first_by]. *)
Lemma keep_first_filter (P : A -> Prop) `{!forall x, Decision (P x)}
    (l : list A) :
  (forall x y, key x = key y -> P x -> P y) ->
  filter P (keep_first_by key l) = keep_first_by key (filter P l).
Proof.
  intros Hkey. induction l as [|x l IH]; [reflexivity|].
  cbn [keep_first_by]. rewrite !filter_cons.
  destruct (decide (P x)) as [Hp|Hp].
  - cbn [keep_first_by]. f_equal. rewrite <- IH.
    rewrite !list_filter_filter. apply list_filter_iff. tauto.
  - rewrite <- IH. apply list_filter_filter_l.
    intros y Hy Heq. apply Hp. exact (Hkey y x Heq Hy).
Qed.

Lemma keep_first_sublist (l : list A) : keep_first_by key l `sublist_of` l.
Proof.
  induction l as [|x l IH]; [constructor|].
  cbn [keep_first_by]. apply sublist_skip.
  etransitivity; [apply sublist_filter | exact IH].
Qed.

Lemma keep_first_NoDup (l : list A) : NoDup (key <$> keep_first_by key l).
Proof.
  induction l as [|x l IH]; [constructor|].
  cbn [keep_first_by]. rewrite fmap_cons. constructor.
  - intros Hin. apply list_elem_of_fmap in Hin as (y & Hy & Hin).
    apply list_elem_of_filter in Hin as [Hne _]. congruence.
  - eapply sublist_NoDup; [exact IH | apply fmap_sublist, sublist_filter].
Qed.

Lemma keep_first_keys (l : list A) (x : A) :
  x ∈ l -> key x ∈ key <$> keep_first_by key l.
Proof.
  induction l as [|a l IH]; intros Hin; [inversion Hin|].
  cbn [keep_first_by]. rewrite fmap_cons.
  destruct (decide (key x = key a)) as [->|Hne]; [left|].
  apply elem_of_cons in Hin as [->|Hin]; [left|].
  right. specialize (IH Hin).
  apply list_elem_of_fmap in IH as (y & Hy & Hyin).
  rewrite Hy. apply list_elem_of_fmap_2, list_elem_of_filter.
  split; [congruence | exact Hyin].
Qed.

(** The element kept for a key is the earliest one: it comes right
    after what is kept of the elements before it. *)
Lemma keep_first_position (before : list A) (x : A) (after : list A) :
  key x ∉ key <$> before ->
  exists rest,
    keep_first_by key (before ++ x :: after)
    = keep_first_by key before ++ x :: rest.
Proof.
  induction before as [|a l IH]; intros Hnotin.
  - eexists. reflexivity.
  - rewrite fmap_cons in Hnotin.
    apply not_elem_of_cons in Hnotin as [Hne Hnotin].
    destruct (IH Hnotin) as [rest Hrest].
    cbn [app keep_first_by]. rewrite Hrest, filter_app.
    rewrite filter_cons_True by exact Hne.
    eexists. reflexivity.
Qed.

(** A key that occurs is kept exactly once. *)
Lemma keep_first_once (l : list A) (x : A) :
  x ∈ l ->
  length (filter (fun y => key y = key x) (keep_first_by key l)) = 1%nat.
Proof.
  intros Hin. pose proof (keep_first_keys l x Hin) as Hkey.
  pose proof (keep_first_NoDup l) as Hnodup.
  induction (keep_first_by key l) as [|a k IH]; [inversion Hkey|].
  rewrite fmap_cons in Hkey, Hnodup.
  apply NoDup_cons in Hnodup as [Hnotin Hnodup].
  rewrite filter_cons. destruct (decide (key a = key x)) as [Heq|Hne].
  - cbn [length]. f_equal. apply length_zero_iff_nil.
    apply elem_of_nil_inv. intros y Hy.
    apply list_elem_of_filter in Hy as [Hyx Hy].
    apply Hnotin. rewrite Heq, <- Hyx. apply list_elem_of_fmap_2, Hy.
  - apply elem_of_cons in Hkey as [Heq|Hkey]; [congruence|].
    apply IH; assumption.
Qed.

(** The loop with a seen-set computes [keep_first_by]. *)
Lemma fold_first_seen {B : Type} (emit : A -> B) (l : list A)
    (seen : gset K) (out : list B) :
  snd (foldl (first_seen_turn key emit) (seen, out) l)
  = out ++ (emit <$> keep_first_by key (filter (fun x => key x ∉ seen) l)).
Proof.
  revert seen out. induction l as [|x l IH]; intros seen out.
  - cbn. rewrite app_nil_r. reflexivity.
  - cbn [foldl first_seen_turn]. rewrite filter_cons.
    destruct (decide (key x ∈ seen)) as [Hin|Hin].
    + rewrite decide_False by tauto. apply IH.
    + rewrite decide_True by exact Hin.
      rewrite IH. cbn [keep_first_by]. rewrite fmap_cons.
      rewrite <- app_assoc. cbn [app]. do 3 f_equal.
      rewrite keep_first_filter by (intros y z Hyz; rewrite Hyz; tauto).
      f_equal. rewrite list_filter_filter.
      apply list_filter_iff. intros y.
      rewrite not_elem_of_union, not_elem_of_singleton. tauto.
Qed.

Lemma fold_first_seen_empty {B : Type} (emit : A -> B) (l : list A) :
  snd (foldl (first_seen_turn key emit) (∅, []) l)
  = emit <$> keep_first_by key l.
Proof.
  rewrite fold_first_seen. cbn [app]. do 2 f_equal.
  induction l as [|x l IH]; [reflexivity|].
  rewrite filter_cons_True by set_solver. f_equal. exact IH.
Qed.
End KeepFirst.

Lemma unique_by_content_keep_first (all_documents : list Document) :
  unique_by_content all_documents
  = keep_first_by page_content all_documents.
Proof.
  unfold unique_by_content.
  change dedup_turn with (first_seen_turn page_content (fun d => d)).
  rewrite fold_first_seen_empty. apply list_fmap_id.
Qed.

Lemma collect_sources_keep_first (documents : list Document) :
  collect_sources documents
  = source_document <$> keep_first_by source_key documents.
Proof.
  unfold collect_sources.
  change source_turn with (first_seen_turn source_key source_document).
  apply fold_first_seen_empty.
Qed.

(* ================================================================== *)
(** * Reasoning about computations *)

Section MonadFacts.
Context {W : Type}.

Lemma bind_inr {A B} (m : M W A) (k : A -> M W B) s b s' :
  bind m k s = (inr b, s') ->
  exists a s1, m s = (inr a, s1) /\ k a s1 = (inr b, s').
Proof.
  unfold bind. destruct (m s) as [[e|a] s1]; intros Heq.
  - discriminate.
  - exists a, s1. split; [reflexivity | exact Heq].
Qed.

Lemma bind_inl {A B} (m : M W A) (k : A -> M W B) s e s1 :
  m s = (inl e, s1) -> bind m k s = (inl e, s1).
Proof. unfold bind. intros ->. reflexivity. Qed.

Lemma bind_step {A B} (m : M W A) (k : A -> M W B) s a s1 :
  m s = (inr a, s1) -> bind m k s = k a s1.
Proof. unfold bind. intros ->. reflexivity. Qed.

Lemma call_inr {A} ev (f : W -> option A * W) s a s' :
  call ev f s = (inr a, s') ->
  exists w', f (world s) = (Some a, w') /\
             s' = {| world := w'; trace := trace s ++ [ev] |}.
Proof.
  unfold call. destruct (f (world s)) as [[a'|] w']; intros Heq.
  - injection Heq as -> <-. exists w'. split; reflexivity.
  - discriminate.
Qed.

Lemma call_trace {A} ev (f : W -> option A * W) s :
  trace (snd (call ev f s)) = trace s ++ [ev].
Proof. unfold call. destruct (f (world s)). reflexivity. Qed.

Lemma appends_ret {A} P (a : A) : appends P (ret (W := W) a).
Proof. intros s. exists []. rewrite app_nil_r. split; [reflexivity|constructor]. Qed.

Lemma appends_raise {A} P e : appends P (raise (W := W) (A := A) e).
Proof. intros s. exists []. rewrite app_nil_r. split; [reflexivity|constructor]. Qed.

Lemma appends_call {A} (P : Event -> Prop) ev (f : W -> option A * W) :
  P ev -> appends P (call ev f).
Proof.
  intros Hev s. exists [ev]. rewrite call_trace.
  split; [reflexivity | repeat constructor; exact Hev].
Qed.

Lemma appends_log (P : Event -> Prop) ev : P ev -> appends P (log (W := W) ev).
Proof.
  intros Hev s. exists [ev]. split; [reflexivity | repeat constructor; exact Hev].
Qed.

Lemma appends_bind {A B} P (m : M W A) (k : A -> M W B) :
  appends P m -> (forall a, appends P (k a)) -> appends P (bind m k).
Proof.
  intros Hm Hk s. unfold bind. destruct (Hm s) as (t1 & Ht1 & HP1).
  destruct (m s) as [[e|a] s1]; cbn [snd] in *.
  - exists t1. split; assumption.
  - destruct (Hk a s1) as (t2 & Ht2 & HP2).
    exists (t1 ++ t2). rewrite Ht2, Ht1, app_assoc.
    split; [reflexivity | apply Forall_app; split; assumption].
Qed.

Lemma appends_match_option {A B} P (o : option A) (k : A -> M W B)
    (d : M W B) :
  (forall a, appends P (k a)) -> appends P d ->
  appends P (match o with Some a => k a | None => d end).
Proof. intros Hk Hd. destruct o; [apply Hk | exact Hd]. Qed.
End MonadFacts.

Create HintDb appends discriminated.
#[export] Hint Resolve appends_ret appends_raise appends_bind
  appends_match_option : appends.

Lemma nodes_of_service_calls (t : list Event) :
  Forall is_service_call t -> nodes_of t = [].
Proof.
  unfold nodes_of. induction 1 as [|e t He _ IH]; [reflexivity|].
  destruct e; cbn in *; solve [contradiction | exact IH].
Qed.

Lemma nodes_of_app (t1 t2 : list Event) :
  nodes_of (t1 ++ t2) = nodes_of t1 ++ nodes_of t2.
Proof. apply omap_app. Qed.

Lemma passes_through_app (n : Node) (t1 t2 : list Event) :
  passes_through n (t1 ++ t2)
  = (passes_through n t1 + passes_through n t2)%nat.
Proof.
  unfold passes_through. rewrite nodes_of_app, filter_app, length_app.
  reflexivity.
Qed.

Lemma searches_of_app (t1 t2 : list Event) :
  searches_of (t1 ++ t2) = searches_of t1 ++ searches_of t2.
Proof. apply omap_app. Qed.

Lemma searches_of_k3 (t : list Event) :
  Forall searches_with_k3 t -> Forall (fun qk => snd qk = 3) (searches_of t).
Proof.
  unfold searches_of. induction 1 as [|e t He _ IH]; [constructor|].
  destruct e; cbn in *; try exact IH. constructor; [exact He | exact IH].
Qed.

Section RaisesOnly.
Context {W : Type}.

Lemma raises_only_ret {A} E (a : A) : raises_only E (ret (W := W) a).
Proof. intros s e s' Heq. discriminate. Qed.

Lemma raises_only_raise {A} (E : Error -> Prop) e :
  E e -> raises_only E (raise (W := W) (A := A) e).
Proof. intros He s e' s' Heq. injection Heq as <- _. exact He. Qed.

Lemma raises_only_call {A} (E : Error -> Prop) ev
    (f : W -> option A * W) :
  E BackendError -> raises_only E (call ev f).
Proof.
  intros He s e s'. unfold call. destruct (f (world s)) as [[a|] w'];
    intros Heq; [discriminate|]. injection Heq as <- _. exact He.
Qed.

Lemma raises_only_bind {A B} E (m : M W A) (k : A -> M W B) :
  raises_only E m -> (forall a, raises_only E (k a)) ->
  raises_only E (bind m k).
Proof.
  intros Hm Hk s e s'. unfold bind.
  destruct (m s) as [[e1|a] s1] eqn:Hms; intros Heq.
  - injection Heq as <- _. exact (Hm _ _ _ Hms).
  - exact (Hk a _ _ _ Heq).
Qed.
End RaisesOnly.

(* ================================================================== *)
(** * The nodes *)

Section NodeFacts.
Context {W : Type} (caps : Capabilities W).

Lemma search_each_appends (P : Event -> Prop) qs all_documents :
  (forall q, P (EvSimilaritySearch q 3)) ->
  appends P (search_each caps qs all_documents).
Proof.
  intros HP. revert all_documents.
  induction qs as [|q qs IH]; intros all_documents; cbn [search_each].
  - apply appends_ret.
  - apply appends_bind; [apply appends_call, HP | intros docs; apply IH].
Qed.

(** What the nodes add to the log: calls of the services, and
    searches with [k = 3] only. *)
Lemma node_function_appends (P : Event -> Prop) n state :
  (forall q, P (EvQueryAnalyzer q)) ->
  (forall q, P (EvSimilaritySearch q 3)) ->
  (forall q c, P (EvAnswerGenerator q c)) ->
  (forall q a, P (EvEvaluator q a)) ->
  appends P (node_function caps n state).
Proof.
  intros Ha Hs Hg He. destruct n; cbn [node_function].
  - unfold analyze_query, query_analyzer_invoke.
    repeat (apply appends_bind; [|intros ?]);
      auto using appends_call with appends.
  - unfold retrieve_documents.
    apply appends_bind; [apply search_each_appends, Hs | intros ?].
    apply appends_ret.
  - unfold generate_answer, answer_generator_invoke.
    apply appends_bind; [apply appends_call, Hg | intros ?].
    apply appends_ret.
  - unfold evaluate_answer, evaluator_invoke.
    repeat (apply appends_bind; [|intros ?]);
      auto using appends_call with appends.
  - apply appends_ret.
Qed.

Lemma search_each_raises_only qs all_documents :
  raises_only (fun e => e = BackendError)
    (search_each caps qs all_documents).
Proof.
  revert all_documents.
  induction qs as [|q qs IH]; intros all_documents; cbn [search_each].
  - apply raises_only_ret.
  - apply raises_only_bind; [|intros docs; apply IH].
    apply raises_only_call. reflexivity.
Qed.

(** A node raises because a service failed or because the model's
    answer was rejected by its schema, and for no other reason. *)
Lemma node_function_raises_only n state :
  raises_only (fun e => e = BackendError \/ e = ValidationError)
    (node_function caps n state).
Proof.
  destruct n; cbn [node_function].
  - unfold analyze_query, query_analyzer_invoke.
    apply raises_only_bind; [|intros ?; apply raises_only_ret].
    apply raises_only_bind; [apply raises_only_call; tauto | intros raw].
    destruct (SearchQueries.validate raw);
      [apply raises_only_ret | apply raises_only_raise; tauto].
  - unfold retrieve_documents.
    apply raises_only_bind; [|intros ?; apply raises_only_ret].
    intros s e s' Heq. left.
    exact (search_each_raises_only _ _ _ _ _ Heq).
  - unfold generate_answer, answer_generator_invoke.
    apply raises_only_bind; [|intros ?; apply raises_only_ret].
    apply raises_only_call; tauto.
  - unfold evaluate_answer, evaluator_invoke.
    apply raises_only_bind; [|intros ?; apply raises_only_ret].
    apply raises_only_bind; [apply raises_only_call; tauto | intros raw].
    destruct (EvaluationResult.validate raw);
      [apply raises_only_ret | apply raises_only_raise; tauto].
  - apply raises_only_ret.
Qed.

(** The keys of the dict a node returns. *)
Lemma node_function_update n state s u s' :
  node_function caps n state s = (inr u, s') ->
  upd_query u = None /\
  upd_iteration u
  = (if decide (n = evaluate_answer_node)
     then Some (iteration state + 1) else None) /\
  (n <> retrieve_documents_node -> upd_retrieved_documents u = None).
Proof.
  destruct n; cbn [node_function]; intros Heq.
  - apply bind_inr in Heq as (r & s1 & _ & Heq).
    injection Heq as <- _. repeat split.
  - apply bind_inr in Heq as (r & s1 & _ & Heq).
    injection Heq as <- _. repeat split. congruence.
  - apply bind_inr in Heq as (r & s1 & _ & Heq).
    injection Heq as <- _. repeat split.
  - apply bind_inr in Heq as (r & s1 & _ & Heq).
    injection Heq as <- _. repeat split.
  - injection Heq as <- _. repeat split.
Qed.
End NodeFacts.

(* ================================================================== *)
(** * The graph *)

Lemma conditional_edge_taken (state : RAGAgentState) :
  conditional_edges !! should_retry state
  = Some (if is_sufficient state then END
          else if iteration state >=? MAX_ITERATIONS then END
               else analyze_query_node).
Proof.
  unfold should_retry.
  destruct (is_sufficient state); [reflexivity|].
  destruct (iteration state >=? MAX_ITERATIONS); reflexivity.
Qed.

Lemma next_node_total (n : Node) (state : RAGAgentState) :
  exists n', next_node n state = Some n'.
Proof.
  destruct n; cbn [next_node]; eauto.
  rewrite conditional_edge_taken. eauto.
Qed.

Section GraphFacts.
Context {W : Type} (caps : Capabilities W).

Lemma graph_step_inr n state s n' state' s' :
  graph_step caps n state s = (inr (n', state'), s') ->
  exists u,
    node_function caps n state (logged n s) = (inr u, s') /\
    state' = apply_update state u /\
    next_node n state' = Some n'.
Proof.
  unfold graph_step. intros Heq.
  apply bind_inr in Heq as ([] & s1 & Hlog & Heq).
  injection Hlog as <-.
  apply bind_inr in Heq as (u & s2 & Hnode & Heq).
  exists u. destruct (next_node n (apply_update state u)) as [m|] eqn:Hnext;
    [|discriminate].
  injection Heq as <- <- <-. auto.
Qed.

Lemma graph_step_inl n state s e s' :
  graph_step caps n state s = (inl e, s') ->
  node_function caps n state (logged n s) = (inl e, s').
Proof.
  unfold graph_step, bind at 1. cbn [log]. fold (logged n s).
  unfold bind.
  destruct (node_function caps n state (logged n s)) as [[e1|u] s1];
    [intros Heq; injection Heq as -> ->; reflexivity|].
  destruct (next_node_total n (apply_update state u)) as [m ->].
  discriminate.
Qed.

Lemma graph_step_snd n state s :
  snd (graph_step caps n state s)
  = snd (node_function caps n state (logged n s)).
Proof.
  unfold graph_step, bind at 1. cbn [log]. fold (logged n s).
  unfold bind.
  destruct (node_function caps n state (logged n s)) as [[e1|u] s1];
    [reflexivity|].
  destruct (next_node n (apply_update state u)); reflexivity.
Qed.

(** A step logs its node, and then only what the node does. *)
Lemma graph_step_trace n state s :
  exists t,
    trace (snd (graph_step caps n state s)) = trace s ++ EvNode n :: t /\
    Forall is_service_call t /\ Forall searches_with_k3 t.
Proof.
  rewrite graph_step_snd.
  destruct (node_function_appends caps
              (fun e => is_service_call e /\ searches_with_k3 e) n state)
    with (s := logged n s) as (t & Ht & HP); try (cbn; tauto).
  exists t. rewrite Ht. cbn [logged trace]. rewrite <- app_assoc.
  split; [reflexivity|].
  split; eapply Forall_impl; try exact HP; cbn; tauto.
Qed.

Lemma graph_step_raises_only n state :
  raises_only (fun e => e = BackendError \/ e = ValidationError)
    (graph_step caps n state).
Proof.
  intros s e s' Heq. apply graph_step_inl in Heq.
  exact (node_function_raises_only caps n state _ _ _ Heq).
Qed.

(** What one step does to the fields the loop depends on. *)
Lemma graph_step_frame n state s n' state' s' :
  graph_step caps n state s = (inr (n', state'), s') ->
  query state' = query state /\
  iteration state'
  = (if decide (n = evaluate_answer_node)
     then iteration state + 1 else iteration state) /\
  retrieved_documents state `prefix_of` retrieved_documents state' /\
  (n <> retrieve_documents_node ->
   retrieved_documents state' = retrieved_documents state).
Proof.
  intros Heq. apply graph_step_inr in Heq as (u & Hnode & -> & _).
  apply node_function_update in Hnode as (Hq & Hi & Hr).
  unfold apply_update. cbn. rewrite Hq, Hi.
  split; [reflexivity|]. split; [destruct (decide _); reflexivity|].
  split.
  - destruct (upd_retrieved_documents u); [apply prefix_app_r|]; reflexivity.
  - intros Hn. rewrite (Hr Hn). reflexivity.
Qed.

(** Every step uses up one of the steps left, and a step through [m]
    uses up one of the visits to [m] left. *)
Lemma evaluations_left_same state state' :
  iteration state' = iteration state ->
  evaluations_left state' = evaluations_left state.
Proof. unfold evaluations_left. intros ->. reflexivity. Qed.

Lemma evaluations_left_retry state state' :
  iteration state' = iteration state + 1 ->
  iteration state' < MAX_ITERATIONS ->
  evaluations_left state = S (evaluations_left state').
Proof. unfold evaluations_left, MAX_ITERATIONS. lia. Qed.

Lemma evaluations_left_pos state : (1 <= evaluations_left state)%nat.
Proof. unfold evaluations_left. lia. Qed.

Local Arguments evaluations_left : simpl never.

(** Every step uses up one of the steps left, and a step through [m]
    uses up one of the visits to [m] left. *)
Lemma steps_decrease n state s n' state' s' :
  n <> END ->
  graph_step caps n state s = (inr (n', state'), s') ->
  (S (steps_left n' state') <= steps_left n state)%nat /\
  forall m, m <> END ->
    ((if decide (m = n) then 1 else 0) + visits_left m n' state'
     <= visits_left m n state)%nat.
Proof.
  intros Hn Heq.
  pose proof (graph_step_frame _ _ _ _ _ _ Heq) as (_ & Hi & _).
  apply graph_step_inr in Heq as (u & _ & _ & Hnext).
  pose proof (evaluations_left_pos state) as Hpos.
  destruct n; try congruence; cbn [next_node] in Hnext.
  1-3: injection Hnext as <-; rewrite decide_False in Hi by discriminate;
    apply evaluations_left_same in Hi;
    unfold steps_left, visits_left; rewrite Hi;
    split; [cbn; lia | intros m Hm; destruct m; try congruence; cbn;
                       case_decide; try congruence; lia].
  rewrite conditional_edge_taken in Hnext.
  rewrite decide_True in Hi by reflexivity.
  destruct (is_sufficient state').
  - injection Hnext as <-. unfold steps_left, visits_left.
    split; [cbn; lia | intros m Hm; destruct m; try congruence; cbn;
                       case_decide; try congruence; lia].
  - destruct (Z.geb_spec (iteration state') MAX_ITERATIONS);
      injection Hnext as <-; unfold steps_left, visits_left.
    + split; [cbn; lia|intros m Hm; destruct m; try congruence; cbn;
                       case_decide; try congruence; lia].
    + rewrite (evaluations_left_retry state state') by assumption.
      pose proof (evaluations_left_pos state') as Hpos'.
      split; [cbn; lia|intros m Hm; destruct m; try congruence; cbn;
                       case_decide; try congruence; lia].
Qed.
End GraphFacts.

(* ================================================================== *)
(** * Runs *)

Section RunFacts.
Context {W : Type} (caps : Capabilities W).

Lemma run_graph_END fuel state (s : Sys W) :
  run_graph caps fuel END state s = (inr state, s).
Proof. destruct fuel; reflexivity. Qed.

Lemma run_graph_step fuel n state (s : Sys W) :
  n <> END ->
  run_graph caps (S fuel) n state s
  = bind (graph_step caps n state)
      (fun next => run_graph caps fuel (fst next) (snd next)) s.
Proof. destruct n; [reflexivity..|congruence]. Qed.

Lemma run_graph_O n state (s : Sys W) :
  n <> END -> run_graph caps 0 n state s = (inl GraphRecursionError, s).
Proof. destruct n; [reflexivity..|congruence]. Qed.

Lemma steps_left_pos n state :
  n <> END -> (1 <= steps_left n state)%nat.
Proof. destruct n; cbn; try congruence; lia. Qed.

Lemma agent_invoke_unfold state (s : Sys W) :
  agent_invoke caps state s
  = run_graph caps RECURSION_LIMIT analyze_query_node state s.
Proof. reflexivity. Qed.

(** Past the steps a run needs, more fuel changes nothing. *)
Lemma run_graph_fuel f1 : forall f2 n state (s : Sys W),
  (steps_left n state <= f1)%nat -> (steps_left n state <= f2)%nat ->
  run_graph caps f1 n state s = run_graph caps f2 n state s.
Proof.
  induction f1 as [|f1 IH]; intros f2 n state s H1 H2;
    destruct (decide (n = END)) as [->|Hn];
    try (rewrite !run_graph_END; reflexivity).
  - pose proof (steps_left_pos n state Hn). lia.
  - destruct f2 as [|f2]; [pose proof (steps_left_pos n state Hn); lia|].
    rewrite !run_graph_step by exact Hn. unfold bind.
    destruct (graph_step caps n state s) as [[e|[n' state']] s1] eqn:Hstep;
      [reflexivity|].
    apply steps_decrease in Hstep as [Hlt _]; [|exact Hn].
    cbn [fst snd]. apply IH; lia.
Qed.

(** With the steps it needs, a run never hits the step limit. *)
Lemma run_graph_halts fuel : forall n state (s : Sys W),
  (steps_left n state <= fuel)%nat ->
  fst (run_graph caps fuel n state s) <> inl GraphRecursionError.
Proof.
  induction fuel as [|fuel IH]; intros n state s Hfuel;
    destruct (decide (n = END)) as [->|Hn];
    try (rewrite run_graph_END; discriminate).
  - pose proof (steps_left_pos n state Hn). lia.
  - rewrite run_graph_step by exact Hn. unfold bind.
    destruct (graph_step caps n state s) as [[e|[n' state']] s1] eqn:Hstep.
    + apply graph_step_raises_only in Hstep. cbn [fst].
      destruct Hstep as [-> | ->]; discriminate.
    + apply steps_decrease in Hstep as [Hlt _]; [|exact Hn].
      cbn [fst snd]. apply IH. lia.
Qed.

Lemma passes_through_step m n (t : list Event) :
  Forall is_service_call t ->
  passes_through m (EvNode n :: t) = if decide (m = n) then 1%nat else 0%nat.
Proof.
  intros Ht. unfold passes_through.
  change (EvNode n :: t) with ([EvNode n] ++ t).
  rewrite nodes_of_app, (nodes_of_service_calls t Ht), app_nil_r.
  cbn. destruct (decide (n = m)) as [->|Hne].
  - rewrite decide_True by reflexivity. reflexivity.
  - rewrite decide_False by congruence. reflexivity.
Qed.

(** What a run adds to the log: at most [visits_left] passes through
    each node, and searches with [k = 3] only. *)
Lemma run_graph_trace fuel : forall n state (s : Sys W),
  exists t,
    trace (snd (run_graph caps fuel n state s)) = trace s ++ t /\
    (forall m, m <> END -> (passes_through m t <= visits_left m n state)%nat)
    /\ Forall searches_with_k3 t.
Proof.
  induction fuel as [|fuel IH]; intros n state s;
    destruct (decide (n = END)) as [->|Hn];
    try (rewrite run_graph_END; exists []; rewrite app_nil_r;
         split; [reflexivity|]; split; [intros; cbn; lia | constructor]).
  - rewrite run_graph_O by exact Hn. exists []. rewrite app_nil_r.
    split; [reflexivity|]. split; [intros; cbn; lia | constructor].
  - rewrite run_graph_step by exact Hn. unfold bind.
    destruct (graph_step_trace caps n state s) as (t1 & Ht1 & Hcalls & Hk3).
    destruct (graph_step caps n state s) as [[e|[n' state']] s1] eqn:Hstep;
      cbn [fst snd] in *.
    + exists (EvNode n :: t1). split; [exact Ht1|].
      split; [|constructor; [exact I | exact Hk3]].
      intros m Hm. rewrite passes_through_step by exact Hcalls.
      case_decide; [subst m|lia]. unfold visits_left.
      destruct n; try congruence; cbn;
        pose proof (evaluations_left_pos state); lia.
    + destruct (IH n' state' s1) as (t2 & Ht2 & Hvisits & Hk3').
      apply steps_decrease in Hstep as [_ Hdec]; [|exact Hn].
      exists ((EvNode n :: t1) ++ t2). rewrite Ht2, Ht1, app_assoc.
      split; [reflexivity|]. split.
      * intros m Hm. rewrite passes_through_app.
        rewrite passes_through_step by exact Hcalls.
        specialize (Hdec m Hm). specialize (Hvisits m Hm). lia.
      * apply Forall_app. split; [|exact Hk3'].
        constructor; [exact I | exact Hk3].
Qed.

(** A run that returns went step by step to [END]. *)
Lemma run_graph_reaches fuel : forall n state (s : Sys W) state' s',
  run_graph caps fuel n state s = (inr state', s') ->
  reaches caps {| at_node := n; at_state := state; at_sys := s |}
               {| at_node := END; at_state := state'; at_sys := s' |}.
Proof.
  induction fuel as [|fuel IH]; intros n state s state' s' Hrun;
    destruct (decide (n = END)) as [->|Hn];
    try (rewrite run_graph_END in Hrun; injection Hrun as <- <-;
         apply rtc_refl).
  - rewrite run_graph_O in Hrun by exact Hn. discriminate.
  - rewrite run_graph_step in Hrun by exact Hn.
    apply bind_inr in Hrun as ([n1 state1] & s1 & Hstep & Hrun).
    eapply rtc_l; [|exact (IH _ _ _ _ _ Hrun)].
    split; [exact Hn | exact Hstep].
Qed.

(** Along a run the question stays, the iteration count does not go
    down, and the retrieved documents only grow at the end. *)
Lemma reaches_frame (c c' : Config W) :
  reaches caps c c' ->
  query (at_state c') = query (at_state c) /\
  iteration (at_state c) <= iteration (at_state c') /\
  retrieved_documents (at_state c)
    `prefix_of` retrieved_documents (at_state c').
Proof.
  induction 1 as [c|c c1 c2 [_ Hstep] _ IH].
  - split; [reflexivity|]. split; [lia | reflexivity].
  - apply graph_step_frame in Hstep as (Hq & Hi & Hp & _).
    destruct IH as (Hq' & Hi' & Hp').
    split; [congruence|]. split.
    + destruct (decide _); lia.
    + etransitivity; eassumption.
Qed.

(** Once a step of a run raises, no amount of fuel makes the run
    return a state. *)
Lemma reaches_raise (c c' : Config W) e s1 :
  reaches caps c c' ->
  at_node c' <> END ->
  graph_step caps (at_node c') (at_state c') (at_sys c') = (inl e, s1) ->
  forall fuel,
    run_graph caps fuel (at_node c) (at_state c) (at_sys c)
    = (inl e, s1) \/
    exists s2, run_graph caps fuel (at_node c) (at_state c) (at_sys c)
               = (inl GraphRecursionError, s2).
Proof.
  induction 1 as [c|c c1 c2 [Hn Hstep] _ IH]; intros Hend Hraise fuel.
  - destruct fuel as [|fuel].
    + right. eexists. apply run_graph_O, Hend.
    + left. rewrite run_graph_step by exact Hend.
      apply bind_inl, Hraise.
  - destruct fuel as [|fuel].
    + right. eexists. apply run_graph_O, Hn.
    + rewrite run_graph_step by exact Hn.
      rewrite (bind_step _ _ _ _ _ Hstep). cbn [fst snd].
      apply IH; assumption.
Qed.
End RunFacts.

(* ================================================================== *)
(** * Termination of the loop *)

(** With an evaluator that never finds the answer sufficient, the run
    goes through evaluation three times and returns after the third. *)
Example never_sufficient_run :
  let r := agent_invoke (Demo.caps Demo.two_queries Demo.never)
             (initial_state (py "q")) Demo.start in
  (exists final, fst r = inr final /\
     iteration final = 3 /\ is_sufficient final = false) /\
  passes_through evaluate_answer_node (trace (snd r)) = 3%nat /\
  passes_through analyze_query_node (trace (snd r)) = 3%nat /\
  length (searches_of (trace (snd r))) = 6%nat.
Proof.
  vm_compute. split; [eexists; split; [reflexivity|]|]; repeat split.
Qed.

(** C2: a run started with [iteration = 0] halts: twelve steps are
    enough whatever the services answer, so the step limit is never
    hit, and the run goes at most [MAX_ITERATIONS = 3] times through
    retrieval, generation and evaluation.  The evaluation step adds
    exactly one to [iteration], and the retry check is made on the
    count after the increment. *)
Theorem loop_halts_within_three_passes {W : Type} (caps : Capabilities W)
    (state : RAGAgentState) (s : Sys W) :
  iteration state = 0 ->
  (forall fuel, (12 <= fuel)%nat ->
     run_graph caps fuel analyze_query_node state s
     = agent_invoke caps state s) /\
  fst (agent_invoke caps state s) <> inl GraphRecursionError /\
  (exists t,
     trace (snd (agent_invoke caps state s)) = trace s ++ t /\
     (passes_through analyze_query_node t <= 3)%nat /\
     (passes_through retrieve_documents_node t <= 3)%nat /\
     (passes_through generate_answer_node t <= 3)%nat /\
     (passes_through evaluate_answer_node t <= 3)%nat) /\
  (forall st s1 n' st' s1',
     graph_step caps evaluate_answer_node st s1 = (inr (n', st'), s1') ->
     iteration st' = iteration st + 1 /\
     (n' = analyze_query_node <->
      is_sufficient st' = false /\ iteration st + 1 < MAX_ITERATIONS) /\
     (n' = END <->
      is_sufficient st' = true \/ iteration st + 1 >= MAX_ITERATIONS)).
Proof.
  intros Hzero.
  assert (Hsteps : steps_left analyze_query_node state = 12%nat).
  { unfold steps_left, evaluations_left. rewrite Hzero. reflexivity. }
  assert (Hvisits : forall m, m <> END ->
                      visits_left m analyze_query_node state = 3%nat).
  { intros m Hm. unfold visits_left, evaluations_left. rewrite Hzero.
    destruct m; reflexivity || congruence. }
  split; [|split; [|split]].
  - intros fuel Hfuel. unfold agent_invoke, RECURSION_LIMIT.
    apply run_graph_fuel; rewrite Hsteps; lia.
  - apply run_graph_halts. rewrite Hsteps. unfold RECURSION_LIMIT. lia.
  - destruct (run_graph_trace caps RECURSION_LIMIT analyze_query_node state s)
      as (t & Ht & Hbound & _).
    exists t. split; [exact Ht|].
    assert (Hb : forall m, m <> END -> (passes_through m t <= 3)%nat)
      by (intros m Hm; rewrite <- (Hvisits m Hm); apply Hbound, Hm).
    repeat split; apply Hb; discriminate.
  - intros st s1 n' st' s1' Hstep.
    pose proof (graph_step_frame _ _ _ _ _ _ _ Hstep) as (_ & Hi & _).
    rewrite decide_True in Hi by reflexivity.
    apply graph_step_inr in Hstep as (u & _ & _ & Hnext).
    cbn [next_node] in Hnext. rewrite conditional_edge_taken in Hnext.
    split; [exact Hi|]. rewrite <- Hi. unfold MAX_ITERATIONS in *.
    destruct (is_sufficient st'); [|destruct (Z.geb_spec (iteration st') 3)];
      injection Hnext as <-; split; split;
      intros; try discriminate; try tauto; try lia; auto.
Qed.

Lemma loop_halts_within_three_passes_witness :
  let caps := Demo.caps Demo.two_queries Demo.never in
  let state := initial_state (py "q") in
  (forall fuel, (12 <= fuel)%nat ->
     run_graph caps fuel analyze_query_node state Demo.start
     = agent_invoke caps state Demo.start) /\
  fst (agent_invoke caps state Demo.start) <> inl GraphRecursionError.
Proof.
  intros caps state.
  pose proof (loop_halts_within_three_passes caps state Demo.start eq_refl)
    as (Hfuel & Hhalts & _).
  split; [exact Hfuel | exact Hhalts].
Defined.


(* ================================================================== *)
(** * What a run keeps and what it accumulates *)

Section StepFacts.
Context {W : Type} (caps : Capabilities W).

(** The retrieval step appends what the searches gave, deduplicated. *)
Lemma retrieve_step n' state (s : Sys W) state' s' :
  graph_step caps retrieve_documents_node state s = (inr (n', state'), s') ->
  exists all_documents,
    search_each caps (search_queries state) []
      (logged retrieve_documents_node s) = (inr all_documents, s') /\
    retrieved_documents state'
    = retrieved_documents state ++ unique_by_content all_documents.
Proof.
  intros Hstep. apply graph_step_inr in Hstep as (u & Hnode & -> & _).
  cbn [node_function] in Hnode. unfold retrieve_documents in Hnode.
  apply bind_inr in Hnode as (all_documents & s1 & Hsearch & Hret).
  injection Hret as <- <-. exists all_documents.
  split; [exact Hsearch | reflexivity].
Qed.

(** The analysis step sends [analyzer_question state] to the model and
    nothing else. *)
Lemma analyze_step_trace n' state (s : Sys W) state' s' :
  graph_step caps analyze_query_node state s = (inr (n', state'), s') ->
  trace s' = trace s ++ [EvNode analyze_query_node;
                         EvQueryAnalyzer (analyzer_question state)].
Proof.
  intros Hstep. apply graph_step_inr in Hstep as (u & Hnode & _ & _).
  cbn [node_function] in Hnode. unfold analyze_query in Hnode.
  apply bind_inr in Hnode as (result & s1 & Hinvoke & Hret).
  injection Hret as _ <-. unfold query_analyzer_invoke in Hinvoke.
  apply bind_inr in Hinvoke as (raw & s2 & Hcall & Hvalid).
  apply call_inr in Hcall as (w' & _ & ->).
  destruct (SearchQueries.validate raw); [|discriminate].
  injection Hvalid as _ <-. cbn [trace logged]. rewrite <- app_assoc.
  reflexivity.
Qed.
End StepFacts.

(** C3: along a run, at every later point the retrieved documents are
    the earlier ones followed by what was added since, so the sequence
    never gets shorter; and a retrieval step appends its merged result
    to the sequence it found. *)
Theorem retrieved_documents_accumulate {W : Type} (caps : Capabilities W)
    (c c' : Config W) :
  reaches caps c c' ->
  (exists added,
     retrieved_documents (at_state c')
     = retrieved_documents (at_state c) ++ added) /\
  (length (retrieved_documents (at_state c))
   <= length (retrieved_documents (at_state c')))%nat /\
  (forall n' state s state' s',
     graph_step caps retrieve_documents_node state s
     = (inr (n', state'), s') ->
     exists all_documents,
       search_each caps (search_queries state) []
         (logged retrieve_documents_node s) = (inr all_documents, s') /\
       retrieved_documents state'
       = retrieved_documents state ++ unique_by_content all_documents).
Proof.
  intros Hreach. apply reaches_frame in Hreach as (_ & _ & Hprefix).
  split; [exact Hprefix|]. split.
  - apply prefix_length, Hprefix.
  - intros n' state s state' s'. apply retrieve_step.
Qed.

Lemma retrieved_documents_accumulate_witness :
  (exists added,
     retrieved_documents (at_state Demo.retrieved)
     = retrieved_documents (at_state Demo.retrieving) ++ added) /\
  (length (retrieved_documents (at_state Demo.retrieving))
   <= length (retrieved_documents (at_state Demo.retrieved)))%nat.
Proof.
  assert (Hreach : reaches (Demo.caps Demo.two_queries Demo.never)
                     Demo.retrieving Demo.retrieved).
  { apply rtc_once. split; [discriminate | vm_compute; reflexivity]. }
  pose proof (retrieved_documents_accumulate _ _ _ Hreach) as (Ha & Hl & _).
  split; [exact Ha | exact Hl].
Defined.

(** C6: no step of a run changes [query], so a run returns the question
    it was given.  The analysis step of a retry sends the model a
    longer question and leaves [query] as it was. *)
Theorem query_never_changes {W : Type} (caps : Capabilities W) :
  (forall c c' : Config W,
     reaches caps c c' -> query (at_state c') = query (at_state c)) /\
  (forall state s final s',
     agent_invoke caps state s = (inr final, s') ->
     query final = query state) /\
  (forall state s n' state' s',
     graph_step caps analyze_query_node state s = (inr (n', state'), s') ->
     query state' = query state /\
     trace s' = trace s ++ [EvNode analyze_query_node;
                            EvQueryAnalyzer (analyzer_question state)]) /\
  (forall state,
     iteration state > 0 -> evaluation_reason state <> [] ->
     analyzer_question state
     = feedback_question (query state) (evaluation_reason state) /\
     analyzer_question state <> query state).
Proof.
  split; [|split; [|split]].
  - intros c c' Hreach. apply (reaches_frame caps c c' Hreach).
  - intros state s final s' Hrun. rewrite agent_invoke_unfold in Hrun.
    apply run_graph_reaches, reaches_frame in Hrun. apply Hrun.
  - intros state s n' state' s' Hstep. split.
    + apply (graph_step_frame caps _ _ _ _ _ _ Hstep).
    + apply (analyze_step_trace caps _ _ _ _ _ Hstep).
  - intros state Hiter Hreason. unfold analyzer_question.
    destruct (Z.gtb_spec (iteration state) 0); [|lia].
    destruct (evaluation_reason state) as [|ch rest] eqn:Hr; [congruence|].
    cbn [str_truthy andb]. split; [reflexivity|].
    intros Heq. unfold feedback_question in Heq.
    assert (Hnil : FEEDBACK_PREFIX ++ (ch :: rest) ++ FEEDBACK_SUFFIX = [])
      by (apply (app_inv_head (query state)); rewrite app_nil_r; exact Heq).
    unfold FEEDBACK_PREFIX in Hnil. cbn [app] in Hnil. inversion Hnil.
Qed.

Lemma query_never_changes_witness :
  query (at_state Demo.retrieved) = query (at_state Demo.retrieving).
Proof.
  apply (proj1 (query_never_changes (Demo.caps Demo.two_queries Demo.never))).
  apply rtc_once. split; [discriminate | vm_compute; reflexivity].
Defined.


(* ================================================================== *)
(** * Retrieval: merging and deduplication *)

Section RetrieveFacts.
Context {W : Type} (caps : Capabilities W).

(** The first loop of [retrieve_documents] makes one search per query,
    in order, each with [k = 3], and extends [all_documents] with each
    result. *)
Lemma search_each_searched qs : forall all_documents (s : Sys W) every s',
  search_each caps qs all_documents s = (inr every, s') ->
  exists results,
    searched caps 3 qs (world s) results (world s') /\
    every = all_documents ++ concat results /\
    trace s' = trace s ++ ((fun q => EvSimilaritySearch q 3) <$> qs).
Proof.
  induction qs as [|q qs IH]; intros all_documents s every s' Heq;
    cbn [search_each] in Heq.
  - injection Heq as <- <-. exists [].
    split; [constructor|]. cbn. rewrite !app_nil_r. split; reflexivity.
  - apply bind_inr in Heq as (docs & s1 & Hcall & Heq).
    apply call_inr in Hcall as (w' & Hsearch & ->).
    apply IH in Heq as (results & Hrest & -> & Htrace).
    exists (docs :: results). split; [econstructor; eassumption|].
    cbn [concat fmap list_fmap trace] in *. rewrite Htrace, <- !app_assoc.
    split; reflexivity.
Qed.
End RetrieveFacts.

(** C4: the update of [retrieve_documents] holds the results of the
    searches, one search per query in the order of the queries, joined
    in that order and with the first occurrence of each text kept: no
    text occurs twice, the order of the joined results is preserved,
    every text found is present exactly once, and the chunk kept for a
    text is the earliest one, placed right after what is kept of the
    chunks before it. *)
Theorem retrieve_documents_merge {W : Type} (caps : Capabilities W)
    (state : RAGAgentState) (s : Sys W) (u : Update) (s' : Sys W) :
  retrieve_documents caps state s = (inr u, s') ->
  exists results,
    searched caps 3 (search_queries state) (world s) results (world s') /\
    upd_retrieved_documents u
    = Some (keep_first_by page_content (concat results)) /\
    NoDup (page_content <$> keep_first_by page_content (concat results)) /\
    keep_first_by page_content (concat results)
      `sublist_of` concat results /\
    (forall d, d ∈ concat results ->
       length (filter (fun x => page_content x = page_content d)
                 (keep_first_by page_content (concat results))) = 1%nat) /\
    (forall before d after,
       concat results = before ++ d :: after ->
       page_content d ∉ page_content <$> before ->
       exists rest,
         keep_first_by page_content (concat results)
         = keep_first_by page_content before ++ d :: rest).
Proof.
  unfold retrieve_documents. intros Heq.
  apply bind_inr in Heq as (every & s1 & Hsearch & Hret).
  injection Hret as <- <-.
  apply search_each_searched in Hsearch as (results & Hres & -> & _).
  exists results. cbn [app upd_retrieved_documents].
  rewrite unique_by_content_keep_first.
  split; [exact Hres|]. split; [reflexivity|].
  split; [apply keep_first_NoDup|]. split; [apply keep_first_sublist|].
  split; [intros d Hd; apply keep_first_once, Hd|].
  intros before d after -> Hfirst. apply keep_first_position, Hfirst.
Qed.

(** Two queries whose results share the chunk "two": it is kept once,
    where the first query put it. *)
Lemma retrieve_documents_merge_witness :
  exists results,
    searched (Demo.caps Demo.two_queries Demo.never) 3
      [Demo.alpha; Demo.beta] 0%nat results 0%nat /\
    Some [Demo.doc "one" "a.md"; Demo.doc "two" "b.md";
          Demo.doc "three" "a.md"; Demo.long_doc]
    = Some (keep_first_by page_content (concat results)).
Proof.
  destruct (retrieve_documents_merge
              (Demo.caps Demo.two_queries Demo.never) Demo.asked Demo.start
              {| upd_query := None; upd_search_queries := None;
                 upd_retrieved_documents :=
                   Some [Demo.doc "one" "a.md"; Demo.doc "two" "b.md";
                         Demo.doc "three" "a.md"; Demo.long_doc];
                 upd_answer := None; upd_is_sufficient := None;
                 upd_evaluation_reason := None; upd_iteration := None |}
              {| world := 0%nat;
                 trace := [EvSimilaritySearch Demo.alpha 3;
                           EvSimilaritySearch Demo.beta 3] |})
    as (results & Hres & Hupd & _).
  - vm_compute. reflexivity.
  - exists results. split; [exact Hres | exact Hupd].
Defined.


(* ================================================================== *)
(** * The query endpoint *)

Section QueryFacts.
Context {W : Type} (caps : Capabilities W).

Lemma query_snd (request : QueryRequest.t) (s : Sys W) :
  snd (routes.query caps request s)
  = snd (agent_invoke caps
           (initial_state (QueryRequest.question request)) s).
Proof.
  unfold routes.query, bind.
  destruct (agent_invoke caps _ s) as [[e|result] s1]; reflexivity.
Qed.

Lemma query_inr (request : QueryRequest.t) (s : Sys W) resp :
  fst (routes.query caps request s) = inr resp ->
  exists result,
    fst (agent_invoke caps
           (initial_state (QueryRequest.question request)) s) = inr result /\
    resp = {| QueryResponse.answer := answer result;
              QueryResponse.sources :=
                collect_sources (retrieved_documents result);
              QueryResponse.is_sufficient := is_sufficient result;
              QueryResponse.iterations := iteration result |}.
Proof.
  unfold routes.query, bind.
  destruct (agent_invoke caps _ s) as [[e|result] s1]; cbn [fst ret].
  - discriminate.
  - intros Heq. injection Heq as <-. exists result. split; reflexivity.
Qed.
End QueryFacts.

Lemma excerpt_short (c : pystr) : (length c <= 200)%nat -> excerpt c = c.
Proof.
  intros Hlen. unfold excerpt.
  destruct (Nat.ltb_spec 200 (length c)); [lia | reflexivity].
Qed.

Lemma excerpt_long (c : pystr) :
  (200 < length c)%nat ->
  excerpt c = take 200 c ++ py "..." /\ length (excerpt c) = 203%nat.
Proof.
  intros Hlen. unfold excerpt.
  destruct (Nat.ltb_spec 200 (length c)); [|lia].
  split; [reflexivity|]. rewrite length_app, length_take.
  change (length (py "...")) with 3%nat. lia.
Qed.

(** C8: the sources of a response are made from the documents the run
    accumulated, one per source identifier, the first document of each
    identifier, in the order in which the identifiers first occur; two
    documents with one text and two identifiers both appear.  The
    content of a source is the text when it has at most 200 characters,
    and otherwise its first 200 characters followed by "...". *)
Theorem query_sources {W : Type} (caps : Capabilities W)
    (request : QueryRequest.t) (s : Sys W) (resp : QueryResponse.t) :
  fst (routes.query caps request s) = inr resp ->
  exists result,
    fst (agent_invoke caps
           (initial_state (QueryRequest.question request)) s) = inr result /\
    QueryResponse.sources resp
    = source_document <$> keep_first_by source_key (retrieved_documents result)
    /\
    NoDup (SourceDocument.source <$> QueryResponse.sources resp) /\
    (forall d, d ∈ retrieved_documents result ->
       source_key d ∈ SourceDocument.source <$> QueryResponse.sources resp) /\
    (forall before d after,
       retrieved_documents result = before ++ d :: after ->
       source_key d ∉ source_key <$> before ->
       exists rest,
         QueryResponse.sources resp
         = (source_document <$> keep_first_by source_key before)
             ++ source_document d :: rest) /\
    (forall d,
       SourceDocument.source (source_document d) = source_key d /\
       ((length (page_content d) <= 200)%nat ->
        SourceDocument.content (source_document d) = page_content d) /\
       ((200 < length (page_content d))%nat ->
        SourceDocument.content (source_document d)
        = take 200 (page_content d) ++ py "..." /\
        length (SourceDocument.content (source_document d)) = 203%nat)).
Proof.
  intros Hresp. apply query_inr in Hresp as (result & Hrun & ->).
  exists result. cbn [QueryResponse.sources].
  rewrite collect_sources_keep_first.
  assert (Hkeys : SourceDocument.source <$>
                    (source_document <$>
                       keep_first_by source_key (retrieved_documents result))
                  = source_key <$>
                      keep_first_by source_key (retrieved_documents result)).
  { rewrite <- list_fmap_compose. reflexivity. }
  split; [exact Hrun|]. split; [reflexivity|]. rewrite Hkeys.
  split; [apply keep_first_NoDup|].
  split; [intros d Hd; apply keep_first_keys, Hd|]. split.
  - intros before d after -> Hfirst.
    destruct (keep_first_position source_key before d after Hfirst)
      as [rest ->].
    exists (source_document <$> rest). rewrite fmap_app, fmap_cons.
    reflexivity.
  - intros d. split; [reflexivity|]. cbn [source_document SourceDocument.content].
    split; [apply excerpt_short | apply excerpt_long].
Qed.

Lemma query_sources_witness :
  exists result,
    fst (agent_invoke (Demo.caps Demo.two_queries Demo.at_once)
           (initial_state (QueryRequest.question (Demo.request 5)))
           Demo.start) = inr result /\
    QueryResponse.sources Demo.response
    = source_document <$> keep_first_by source_key (retrieved_documents result).
Proof.
  destruct (query_sources (Demo.caps Demo.two_queries Demo.at_once)
              (Demo.request 5) Demo.start Demo.response)
    as (result & Hrun & Hsources & _).
  - vm_compute. reflexivity.
  - exists result. split; [exact Hrun | exact Hsources].
Defined.

(** C10: [query] never reads [top_k].  Two requests with one question
    give the same outcome, leave the same world and the same log, so
    they make the same searches; and every search a request makes is
    made with [k = 3]. *)
Theorem top_k_is_ignored {W : Type} (caps : Capabilities W)
    (r1 r2 : QueryRequest.t) (s : Sys W) :
  QueryRequest.question r1 = QueryRequest.question r2 ->
  routes.query caps r1 s = routes.query caps r2 s /\
  searches_of (trace (snd (routes.query caps r1 s)))
  = searches_of (trace (snd (routes.query caps r2 s))) /\
  exists t,
    trace (snd (routes.query caps r1 s)) = trace s ++ t /\
    Forall (fun qk => snd qk = 3) (searches_of t).
Proof.
  intros Hq.
  assert (Hsame : routes.query caps r1 s = routes.query caps r2 s).
  { unfold routes.query. rewrite Hq. reflexivity. }
  split; [exact Hsame|]. split; [rewrite Hsame; reflexivity|].
  rewrite query_snd, agent_invoke_unfold.
  destruct (run_graph_trace caps RECURSION_LIMIT analyze_query_node
              (initial_state (QueryRequest.question r1)) s)
    as (t & Ht & _ & Hk3).
  exists t. split; [exact Ht | apply searches_of_k3, Hk3].
Qed.

Lemma top_k_is_ignored_witness :
  routes.query (Demo.caps Demo.two_queries Demo.never) (Demo.request 1)
    Demo.start
  = routes.query (Demo.caps Demo.two_queries Demo.never) (Demo.request 20)
      Demo.start.
Proof.
  apply (top_k_is_ignored (Demo.caps Demo.two_queries Demo.never)
           (Demo.request 1) (Demo.request 20) Demo.start eq_refl).
Defined.

(** The searches of the run of [never_sufficient_run]: two a pass. *)
Example searches_of_demo_run :
  searches_of
    (trace (snd (routes.query (Demo.caps Demo.two_queries Demo.never)
                   (Demo.request 20) Demo.start)))
  = [(Demo.alpha, 3); (Demo.beta, 3); (Demo.alpha, 3); (Demo.beta, 3);
     (Demo.alpha, 3); (Demo.beta, 3)].
Proof. vm_compute. reflexivity. Qed.


(* ================================================================== *)
(** * The feedback of the evaluator *)

Section FeedbackFacts.
Context {W : Type} (caps : Capabilities W).

(** Whatever comes of it, the analysis step asks the model exactly
    [analyzer_question state]. *)
Lemma analyze_step_asks state (s : Sys W) :
  trace (snd (graph_step caps analyze_query_node state s))
  = trace s ++ [EvNode analyze_query_node;
                EvQueryAnalyzer (analyzer_question state)].
Proof.
  rewrite graph_step_snd. cbn [node_function].
  unfold analyze_query, query_analyzer_invoke, bind, call.
  cbn [logged world trace].
  destruct (structured_llm_queries caps (analyzer_question state) (world s))
    as [[raw|] w']; [destruct (SearchQueries.validate raw)|];
    cbn [snd trace ret raise]; rewrite <- app_assoc; reflexivity.
Qed.

End FeedbackFacts.





(* ================================================================== *)
(** * Answers the schema rejects *)

Lemma validate_cardinality (raw : RawSearchQueries) (qs : list pystr) :
  raw_queries raw = Some qs ->
  (length qs < 1)%nat \/ (5 < length qs)%nat ->
  SearchQueries.validate raw = None.
Proof.
  intros Hqs Hlen. unfold SearchQueries.validate. rewrite Hqs.
  destruct (raw_intent raw); [|reflexivity].
  destruct (Nat.leb_spec 1 (length qs)); destruct (Nat.leb_spec (length qs) 5);
    cbn [andb]; try reflexivity. lia.
Qed.

Lemma validate_Some (raw : RawSearchQueries) (r : SearchQueries.t) :
  SearchQueries.validate raw = Some r ->
  raw_queries raw = Some (SearchQueries.queries r) /\
  (1 <= length (SearchQueries.queries r) <= 5)%nat.
Proof.
  unfold SearchQueries.validate.
  destruct (raw_queries raw) as [qs|]; [|discriminate].
  destruct (raw_intent raw) as [i|]; [|discriminate].
  destruct (Nat.leb_spec 1 (length qs)); destruct (Nat.leb_spec (length qs) 5);
    cbn [andb]; try discriminate.
  intros Heq. injection Heq as <-. cbn. split; [reflexivity | lia].
Qed.

Section SchemaFacts.
Context {W : Type} (caps : Capabilities W).

(** An answer of the model that the schema rejects makes the analysis
    step raise, right after the call. *)
Lemma analyze_step_invalid state (s : Sys W) raw w' :
  structured_llm_queries caps (analyzer_question state) (world s)
  = (Some raw, w') ->
  SearchQueries.validate raw = None ->
  graph_step caps analyze_query_node state s
  = (inl ValidationError,
     {| world := w';
        trace := (trace s ++ [EvNode analyze_query_node])
                 ++ [EvQueryAnalyzer (analyzer_question state)] |}).
Proof.
  intros Hcall Hvalid.
  unfold graph_step, bind at 1. cbn [log].
  cbn [node_function]. unfold analyze_query, query_analyzer_invoke.
  unfold bind, call. cbn [world trace]. rewrite Hcall, Hvalid. reflexivity.
Qed.

(** What the analysis step stores is what the model sent, and it has
    one to five queries. *)
Lemma analyze_step_valid state (s : Sys W) n' state' s' :
  graph_step caps analyze_query_node state s = (inr (n', state'), s') ->
  exists raw w',
    structured_llm_queries caps (analyzer_question state) (world s)
    = (Some raw, w') /\
    raw_queries raw = Some (search_queries state') /\
    (1 <= length (search_queries state') <= 5)%nat.
Proof.
  intros Hstep. apply graph_step_inr in Hstep as (u & Hnode & -> & _).
  cbn [node_function] in Hnode. unfold analyze_query in Hnode.
  apply bind_inr in Hnode as (result & s1 & Hinvoke & Hret).
  injection Hret as <- _. unfold query_analyzer_invoke in Hinvoke.
  apply bind_inr in Hinvoke as (raw & s2 & Hcall & Hvalid).
  apply call_inr in Hcall as (w' & Hcall & ->).
  destruct (SearchQueries.validate raw) as [r|] eqn:Hr; [|discriminate].
  injection Hvalid as -> _. apply validate_Some in Hr.
  exists raw, w'. split; [exact Hcall|]. exact Hr.
Qed.
End SchemaFacts.

(** C7: when, at any analysis step of the run of a request, the model's
    answer does not pass the schema of [SearchQueries], [query] raises
    the validation error to its caller, and the log ends with the call
    that was rejected: no search is made for it.  A list of no query or
    of more than five queries does not pass the schema; and the queries
    an analysis step stores are always those the model sent, one to
    five of them. *)
Theorem schema_violation_is_fatal {W : Type} (caps : Capabilities W)
    (request : QueryRequest.t) (s : Sys W) (c : Config W)
    (raw : RawSearchQueries) (w' : W) :
  reaches caps
    {| at_node := analyze_query_node;
       at_state := initial_state (QueryRequest.question request);
       at_sys := s |} c ->
  at_node c = analyze_query_node ->
  structured_llm_queries caps (analyzer_question (at_state c))
    (world (at_sys c)) = (Some raw, w') ->
  SearchQueries.validate raw = None ->
  routes.query caps request s
  = (inl ValidationError,
     {| world := w';
        trace := (trace (at_sys c) ++ [EvNode analyze_query_node])
                 ++ [EvQueryAnalyzer (analyzer_question (at_state c))] |}) /\
  (forall raw' qs,
     raw_queries raw' = Some qs ->
     (length qs < 1)%nat \/ (5 < length qs)%nat ->
     SearchQueries.validate raw' = None) /\
  (forall state s0 n' state' s0',
     graph_step caps analyze_query_node state s0 = (inr (n', state'), s0') ->
     exists raw' w0,
       structured_llm_queries caps (analyzer_question state) (world s0)
       = (Some raw', w0) /\
       raw_queries raw' = Some (search_queries state') /\
       (1 <= length (search_queries state') <= 5)%nat).
Proof.
  intros Hreach Hnode Hcall Hvalid.
  split; [|split; [exact validate_cardinality | apply analyze_step_valid]].
  pose proof (analyze_step_invalid caps _ _ _ _ Hcall Hvalid) as Hstep.
  rewrite <- Hnode in Hstep at 1.
  assert (Hend : at_node c <> END) by (rewrite Hnode; discriminate).
  destruct (reaches_raise caps _ _ _ _ Hreach Hend Hstep RECURSION_LIMIT)
    as [Hrun|[s2 Hrun]]; cbn [at_node at_state at_sys] in Hrun.
  - unfold routes.query. apply bind_inl.
    rewrite agent_invoke_unfold. exact Hrun.
  - exfalso.
    apply (run_graph_halts caps RECURSION_LIMIT analyze_query_node
             (initial_state (QueryRequest.question request)) s).
    + change (steps_left analyze_query_node
                (initial_state (QueryRequest.question request)))
        with 12%nat.
      unfold RECURSION_LIMIT. lia.
    + rewrite Hrun. reflexivity.
Qed.

(** The model sends six queries at the first analysis. *)
Lemma schema_violation_is_fatal_witness :
  routes.query (Demo.caps Demo.six_queries Demo.never) (Demo.request 5)
    Demo.start
  = (inl ValidationError,
     {| world := 0%nat;
        trace := [EvNode analyze_query_node; EvQueryAnalyzer (py "q")] |}).
Proof.
  refine (proj1 (schema_violation_is_fatal
                   (Demo.caps Demo.six_queries Demo.never) (Demo.request 5)
                   Demo.start
                   {| at_node := analyze_query_node;
                      at_state := initial_state (py "q");
                      at_sys := Demo.start |}
                   Demo.six_queries 0%nat _ _ _ _)).
  - apply rtc_refl.
  - reflexivity.
  - reflexivity.
  - reflexivity.
Defined.

(* ================================================================== *)
(** * The upload endpoint *)

(** C9: when the lowered suffix of the file name is none of ".pdf",
    ".md" and ".txt", [upload_document] raises the HTTP error 400 and
    leaves the world and the log as they were: nothing was stored,
    loaded, split or added.  Otherwise, when the temporary file is
    written, the loader for the suffix loads it, the splitter splits
    what was loaded, the store takes the chunks and the file is
    removed, the response counts the chunks that were added to the
    store; and an accepted upload fails only with the failure of a
    service. *)
Theorem upload_document_boundary {W : Type} (caps : Capabilities W)
    (path_suffix str_lower : pystr -> pystr) (settings : Settings)
    (file : UploadFile) (s : Sys W) :
  SUPPORTED_SUFFIXES = [py ".pdf"; py ".md"; py ".txt"] /\
  (str_lower (path_suffix (default [] (filename file)))
     ∉ SUPPORTED_SUFFIXES ->
   routes.upload_document caps path_suffix str_lower settings file s
   = (inl (HTTPException 400), s)) /\
  (str_lower (path_suffix (default [] (filename file)))
     ∈ SUPPORTED_SUFFIXES ->
   (exists s',
      routes.upload_document caps path_suffix str_lower settings file s
      = (inl BackendError, s')) \/
   (exists resp s' documents chunks,
      routes.upload_document caps path_suffix str_lower settings file s
      = (inr resp, s') /\
      UploadResponse.document_count resp = Z.of_nat (length chunks) /\
      trace s'
      = trace s ++
        [EvTempFile (str_lower (path_suffix (default [] (filename file))))
           (file_bytes file);
         if decide (str_lower (path_suffix (default [] (filename file)))
                    = py ".pdf")
         then EvLoadPdf else EvLoadMarkdown;
         EvSplit documents (chunk_size settings) (chunk_overlap settings);
         EvAddDocuments chunks;
         EvUnlink])) /\
  (str_lower (path_suffix (default [] (filename file)))
     ∈ SUPPORTED_SUFFIXES ->
   forall w1 documents w2 chunks w3 w4 w5,
     write_temp_file caps
       (str_lower (path_suffix (default [] (filename file))))
       (file_bytes file) (world s) = (Some tt, w1) ->
     (if decide (str_lower (path_suffix (default [] (filename file)))
                 = py ".pdf")
      then load_pdf caps w1 else load_markdown caps w1)
     = (Some documents, w2) ->
     split_documents caps documents (chunk_size settings)
       (chunk_overlap settings) w2 = (Some chunks, w3) ->
     add_documents caps chunks w3 = (Some tt, w4) ->
     unlink_temp_file caps w4 = (Some tt, w5) ->
     routes.upload_document caps path_suffix str_lower settings file s
     = (inr {| UploadResponse.message :=
                 default (py "None") (filename file) ++ UPLOAD_DONE;
               UploadResponse.document_count := Z.of_nat (length chunks) |},
        {| world := w5;
           trace :=
             trace s ++
             [EvTempFile
                (str_lower (path_suffix (default [] (filename file))))
                (file_bytes file);
              if decide (str_lower (path_suffix (default [] (filename file)))
                         = py ".pdf")
              then EvLoadPdf else EvLoadMarkdown;
              EvSplit documents (chunk_size settings)
                (chunk_overlap settings);
              EvAddDocuments chunks;
              EvUnlink] |})).
Proof.
  split; [reflexivity|]. unfold routes.upload_document.
  set (suffix := str_lower (path_suffix (default [] (filename file)))).
  split; [|split]; intros Hsuffix.
  - rewrite decide_False by exact Hsuffix. reflexivity.
  - rewrite decide_True by exact Hsuffix.
    unfold bind, call. cbn [world trace].
    destruct (write_temp_file caps suffix (file_bytes file) (world s))
      as [[[]|] w1]; [|left; eexists; reflexivity].
    assert (Hload : exists o w2,
               (if decide (suffix = py ".pdf")
                then load_pdf caps w1 else load_markdown caps w1) = (o, w2)).
    { destruct (decide (suffix = py ".pdf")); eexists _, _;
        apply surjective_pairing. }
    destruct Hload as (o & w2 & Hload).
    destruct (decide (suffix = py ".pdf")) as [Hpdf|Hpdf];
      cbn [world trace]; rewrite Hload;
      (destruct o as [documents|]; [|left; eexists; reflexivity]);
      cbn [world trace];
      (destruct (split_documents caps documents (chunk_size settings)
                   (chunk_overlap settings) w2) as [[chunks|] w3];
       [|left; eexists; reflexivity]);
      cbn [world trace];
      (destruct (add_documents caps chunks w3) as [[[]|] w4];
       [|left; eexists; reflexivity]);
      cbn [world trace];
      (destruct (unlink_temp_file caps w4) as [[[]|] w5];
       [|left; eexists; reflexivity]);
      right; eexists _, _, documents, chunks;
      (split; [reflexivity|]); (split; [reflexivity|]);
      cbn [trace]; rewrite <- !app_assoc; reflexivity.
  - intros w1 documents w2 chunks w3 w4 w5 Hwrite Hload Hsplit Hadd Hunlink.
    rewrite decide_True by exact Hsuffix.
    unfold bind, call. cbn [world trace]. rewrite Hwrite.
    destruct (decide (suffix = py ".pdf")) as [Hpdf|Hpdf];
      cbn [world trace]; rewrite Hload; cbn [world trace];
      rewrite Hsplit; cbn [world trace]; rewrite Hadd; cbn [world trace];
      rewrite Hunlink; cbn [ret trace]; rewrite <- !app_assoc; reflexivity.
Qed.

(** A file named "report.docx" is refused, with nothing done; a file
    named "NOTES.MD" is loaded as text, split into two chunks and
    added, and the response counts the two. *)
Lemma upload_document_boundary_witness :
  routes.upload_document (Demo.caps Demo.two_queries Demo.never)
    Demo.path_suffix Demo.str_lower Demo.settings (Demo.upload "report.docx")
    Demo.start
  = (inl (HTTPException 400), Demo.start) /\
  routes.upload_document (Demo.caps Demo.two_queries Demo.never)
    Demo.path_suffix Demo.str_lower Demo.settings (Demo.upload "NOTES.MD")
    Demo.start
  = (inr {| UploadResponse.message := py "NOTES.MD" ++ UPLOAD_DONE;
            UploadResponse.document_count := 2 |},
     {| world := 0%nat;
        trace := [EvTempFile (py ".md") (py "text"); EvLoadMarkdown;
                  EvSplit [Demo.doc "one" "a.md"] 1000 200;
                  EvAddDocuments [Demo.doc "one" "a.md";
                                  Demo.doc "one" "a.md"];
                  EvUnlink] |}).
Proof.
  split.
  - apply (proj1 (proj2 (upload_document_boundary
                           (Demo.caps Demo.two_queries Demo.never)
                           Demo.path_suffix Demo.str_lower Demo.settings
                           (Demo.upload "report.docx") Demo.start))).
    apply (bool_decide_unpack _). vm_compute. exact I.
  - apply (proj2 (proj2 (proj2 (upload_document_boundary
                                  (Demo.caps Demo.two_queries Demo.never)
                                  Demo.path_suffix Demo.str_lower
                                  Demo.settings (Demo.upload "NOTES.MD")
                                  Demo.start)))
             ltac:(apply (bool_decide_unpack _); vm_compute; exact I)
             0%nat [Demo.doc "one" "a.md"] 0%nat
             [Demo.doc "one" "a.md"; Demo.doc "one" "a.md"]
             0%nat 0%nat 0%nat); reflexivity.
Defined.

Example upload_markdown :
  fst (routes.upload_document (Demo.caps Demo.two_queries Demo.never)
         Demo.path_suffix Demo.str_lower Demo.settings
         (Demo.upload "NOTES.MD") Demo.start)
  = inr {| UploadResponse.message := py "NOTES.MD" ++ UPLOAD_DONE;
           UploadResponse.document_count := 2 |}.
Proof. vm_compute. reflexivity. Qed.


(* ================================================================== *)
(** * The context given to the answer generator *)

Lemma str_join_app (sep : pystr) (ps qs : list pystr) :
  ps <> [] -> qs <> [] ->
  str_join sep (ps ++ qs) = str_join sep ps ++ sep ++ str_join sep qs.
Proof.
  intros Hps Hqs. induction ps as [|p ps IH]; [congruence|].
  destruct ps as [|p' ps].
  - destruct qs as [|q qs]; [congruence|]. reflexivity.
  - change (str_join sep ((p :: p' :: ps) ++ qs))
      with (p ++ sep ++ str_join sep ((p' :: ps) ++ qs)).
    rewrite IH by discriminate.
    change (str_join sep (p :: p' :: ps))
      with (p ++ sep ++ str_join sep (p' :: ps)).
    rewrite <- !app_assoc. reflexivity.
Qed.

(** X1: [format_documents] gives no text for no document and numbers
    the documents from 1 in the order of the list.  When documents are
    added at the end, as each retry does, the text for the earlier ones
    is unchanged and stays in front, so the numbers of the earlier
    documents do not move. *)
Theorem format_documents_numbering :
  format_documents [] = [] /\
  (forall d, format_documents [d] = format_part 1 d) /\
  (forall earlier later,
     earlier <> [] -> later <> [] ->
     format_documents (earlier ++ later)
     = format_documents earlier ++ PART_SEPARATOR
       ++ str_join PART_SEPARATOR
            (imap (fun i doc =>
                     format_part (Z.of_nat (length earlier + i) + 1) doc)
               later)).
Proof.
  split; [reflexivity|]. split; [reflexivity|].
  intros earlier later He Hl. unfold format_documents.
  rewrite imap_app. apply str_join_app.
  - destruct earlier; [congruence | discriminate].
  - destruct later; [congruence | discriminate].
Qed.

Lemma format_documents_numbering_witness :
  format_documents ([Demo.doc "one" "a.md"] ++ [Demo.doc "two" "b.md"])
  = format_documents [Demo.doc "one" "a.md"] ++ PART_SEPARATOR
    ++ format_part 2 (Demo.doc "two" "b.md").
Proof.
  apply (proj2 (proj2 format_documents_numbering)
           [Demo.doc "one" "a.md"] [Demo.doc "two" "b.md"]);
    discriminate.
Defined.

(* ================================================================== *)
(** * Excerpts *)

(** An excerpt has at most 203 characters, begins as the text begins,
    and is its own excerpt. *)
Lemma excerpt_bounded (c : pystr) :
  (length (excerpt c) <= 203)%nat /\
  take 200 (excerpt c) = take 200 c /\
  excerpt (excerpt c) = excerpt c.
Proof.
  destruct (Nat.le_gt_cases (length c) 200) as [Hshort|Hlong].
  - rewrite !excerpt_short by (rewrite ?excerpt_short; exact Hshort).
    split; [lia|]. split; reflexivity.
  - destruct (excerpt_long c Hlong) as [Heq Hlen].
    assert (Htake : take 200 (excerpt c) = take 200 c).
    { rewrite Heq. rewrite take_app_length'; [reflexivity|].
      rewrite length_take. lia. }
    split; [lia|]. split; [exact Htake|].
    destruct (excerpt_long (excerpt c)) as [Heq' _]; [lia|].
    rewrite Heq', Htake. symmetry. exact Heq.
Qed.

(** X2: in a response every source holds at most 203 characters of
    content, which is the excerpt of the text of one of the documents
    the run retrieved, and there are no more sources than retrieved
    documents. *)
Theorem source_content_bounded {W : Type} (caps : Capabilities W)
    (request : QueryRequest.t) (s : Sys W) (resp : QueryResponse.t) :
  fst (routes.query caps request s) = inr resp ->
  exists result,
    fst (agent_invoke caps
           (initial_state (QueryRequest.question request)) s) = inr result /\
    (length (QueryResponse.sources resp)
     <= length (retrieved_documents result))%nat /\
    Forall (fun sd =>
              (length (SourceDocument.content sd) <= 203)%nat /\
              exists d, d ∈ retrieved_documents result /\
                        SourceDocument.content sd = excerpt (page_content d) /\
                        excerpt (SourceDocument.content sd)
                        = SourceDocument.content sd)
      (QueryResponse.sources resp).
Proof.
  intros Hresp. apply query_inr in Hresp as (result & Hrun & ->).
  exists result. split; [exact Hrun|]. cbn [QueryResponse.sources].
  rewrite collect_sources_keep_first.
  pose proof (keep_first_sublist source_key (retrieved_documents result))
    as Hsub.
  split.
  - rewrite length_fmap. apply sublist_length, Hsub.
  - apply Forall_fmap, Forall_forall. intros d Hd. cbn.
    split; [apply excerpt_bounded|].
    exists d. split; [|split; [reflexivity | apply excerpt_bounded]].
    eapply sublist_subseteq; [exact Hsub | exact Hd].
Qed.

Lemma source_content_bounded_witness :
  Forall (fun sd => (length (SourceDocument.content sd) <= 203)%nat)
    (QueryResponse.sources Demo.response).
Proof.
  destruct (source_content_bounded
              (Demo.caps Demo.two_queries Demo.at_once) (Demo.request 5)
              Demo.start Demo.response)
    as (result & _ & _ & Hall).
  - vm_compute. reflexivity.
  - eapply Forall_impl; [exact Hall|]. intros sd [Hlen _]. exact Hlen.
Defined.

(* ================================================================== *)
(** * The health endpoint *)

Lemma digits_no_e (d : Decimal.uint) :
  Forall (fun c => c <> 101%N) (py (NilEmpty.string_of_uint d)).
Proof.
  induction d; cbn; [constructor|..]; constructor; (discriminate || exact IHd).
Qed.

Lemma str_of_int_no_e (z : Z) : Forall (fun c => c <> 101%N) (str_of_int z).
Proof.
  unfold str_of_int. destruct (Z.to_int z) as [d|d]; cbn.
  - destruct d; try apply (digits_no_e (_ _)).
    repeat constructor; discriminate.
  - constructor; [discriminate|].
    destruct d; try apply (digits_no_e (_ _)).
    repeat constructor; discriminate.
Qed.

(** "error" does not begin inside a text that has no "e". *)
Lemma str_contains_error_skip (skipped text : pystr) :
  Forall (fun c => c <> 101%N) skipped ->
  str_contains (py "error") (skipped ++ text)
  = str_contains (py "error") text.
Proof.
  induction 1 as [|c skipped Hc _ IH]; [reflexivity|].
  cbn [app]. rewrite <- IH.
  change (py "error") with [101; 114; 114; 111; 114]%N at 1.
  cbn [str_contains starts_with].
  destruct (N.eqb_spec 101 c); [congruence | reflexivity].
Qed.

Lemma count_status_has_no_error (count : Z) :
  str_contains (py "error")
    (py "ok (" ++ str_of_int count ++ py " documents)") = false.
Proof.
  rewrite str_contains_error_skip
    by (repeat constructor; discriminate).
  rewrite str_contains_error_skip by apply str_of_int_no_e.
  reflexivity.
Qed.

(** X3: [health_check] raises nothing and answers with a response
    that the two calls determine.  When the GET on the Ollama server
    answers with the status code 200 and the store can be counted, the
    response is "healthy", with "ok" for the server and
    "ok (n documents)" for the store; whatever the count n, that text
    is not taken for an error.  With any other status code, or when
    either call raises, the response is "unhealthy" and carries the
    error text of each failed check.  The store is asked also when the
    server has failed. *)
Theorem health_check_status {W : Type} (svc : HealthServices W) (w : W)
    (response : option Z) (w1 : W) (counted : option Z) (w2 : W) :
  httpx_get_tags svc w = (response, w1) ->
  collection_count svc w1 = (counted, w2) ->
  health_check svc w
  = ({| HealthResponse.status :=
          match response, counted with
          | Some status_code, Some _ =>
              if status_code =? 200 then py "healthy" else py "unhealthy"
          | _, _ => py "unhealthy"
          end;
        HealthResponse.ollama_status :=
          match response with
          | Some status_code =>
              if status_code =? 200 then py "ok" else ERROR_STATUS_CODE
          | None => ERROR_OLLAMA
          end;
        HealthResponse.vectorstore_status :=
          match counted with
          | Some count => py "ok (" ++ str_of_int count ++ py " documents)"
          | None => ERROR_VECTORSTORE
          end |}, w2) /\
  (response = Some 200 -> is_Some counted ->
   HealthResponse.status (fst (health_check svc w)) = py "healthy") /\
  (~ (response = Some 200 /\ is_Some counted) ->
   HealthResponse.status (fst (health_check svc w)) = py "unhealthy") /\
  py "healthy" <> py "unhealthy".
Proof.
  intros Hget Hcount.
  assert (Hok : str_contains (py "error") (py "ok") = false) by reflexivity.
  assert (He1 : str_contains (py "error") ERROR_STATUS_CODE = true)
    by reflexivity.
  assert (He2 : str_contains (py "error") ERROR_OLLAMA = true)
    by reflexivity.
  assert (He3 : str_contains (py "error") ERROR_VECTORSTORE = true)
    by reflexivity.
  assert (Heq : health_check svc w
    = ({| HealthResponse.status :=
            match response, counted with
            | Some status_code, Some _ =>
                if status_code =? 200 then py "healthy" else py "unhealthy"
            | _, _ => py "unhealthy"
            end;
          HealthResponse.ollama_status :=
            match response with
            | Some status_code =>
                if status_code =? 200 then py "ok" else ERROR_STATUS_CODE
            | None => ERROR_OLLAMA
            end;
          HealthResponse.vectorstore_status :=
            match counted with
            | Some count => py "ok (" ++ str_of_int count ++ py " documents)"
            | None => ERROR_VECTORSTORE
            end |}, w2)).
  { unfold health_check. rewrite Hget, Hcount.
    destruct counted as [count|];
      (destruct response as [code|];
       [destruct (code =? 200)|]); cbn [negb];
      rewrite ?Hok, ?He1, ?He2, ?He3, ?count_status_has_no_error;
      reflexivity. }
  rewrite Heq. cbn [fst HealthResponse.status].
  split; [reflexivity|]. split; [|split].
  - intros -> [count ->]. reflexivity.
  - intros Hnot. destruct response as [code|]; [|reflexivity].
    destruct counted as [count|]; [|reflexivity].
    destruct (Z.eqb_spec code 200) as [->|Hcode]; [|reflexivity].
    exfalso. apply Hnot. split; [reflexivity | eexists; reflexivity].
  - intros Hsame. apply (f_equal length) in Hsame. vm_compute in Hsame.
    discriminate Hsame.
Qed.

Example health_check_examples :
  fst (health_check (Demo.health (Some 200) (Some 12)) 0%nat)
  = {| HealthResponse.status := py "healthy";
       HealthResponse.ollama_status := py "ok";
       HealthResponse.vectorstore_status := py "ok (12 documents)" |} /\
  HealthResponse.status
    (fst (health_check (Demo.health (Some 503) (Some 12)) 0%nat))
  = py "unhealthy" /\
  HealthResponse.status
    (fst (health_check (Demo.health None None) 0%nat))
  = py "unhealthy".
Proof. repeat split. Qed.

(** A server that answers 200 before a store of twelve entries, and a
    server that answers 503 before a store that cannot be reached. *)
Lemma health_check_status_witness :
  health_check (Demo.health (Some 200) (Some 12)) 0%nat
  = ({| HealthResponse.status := py "healthy";
        HealthResponse.ollama_status := py "ok";
        HealthResponse.vectorstore_status := py "ok (12 documents)" |},
     2%nat) /\
  health_check (Demo.health (Some 503) None) 0%nat
  = ({| HealthResponse.status := py "unhealthy";
        HealthResponse.ollama_status := ERROR_STATUS_CODE;
        HealthResponse.vectorstore_status := ERROR_VECTORSTORE |},
     2%nat).
Proof.
  split.
  - apply (proj1 (health_check_status (Demo.health (Some 200) (Some 12))
                    0%nat (Some 200) 1%nat (Some 12) 2%nat
                    eq_refl eq_refl)).
  - apply (proj1 (health_check_status (Demo.health (Some 503) None)
                    0%nat (Some 503) 1%nat None 2%nat
                    eq_refl eq_refl)).
Defined.

(* ================================================================== *)
(** * Loading a directory *)

Section LoadFacts.
Context {W : Type} (fs : Loaders W).
Variable path_suffix : pystr -> pystr.
Variable str_lower : pystr -> pystr.

Lemma has_loader_cases (file_path : pystr) :
  has_loader path_suffix str_lower file_path <->
  str_lower (path_suffix file_path) = py ".pdf" \/
  str_lower (path_suffix file_path) ∈ [py ".md"; py ".txt"].
Proof. unfold has_loader, SUPPORTED_SUFFIXES. apply elem_of_cons. Qed.

(** A path without a loader is passed over. *)
Lemma load_each_skip file_path rest documents (w : W) :
  ~ has_loader path_suffix str_lower file_path ->
  load_each fs path_suffix str_lower (file_path :: rest) documents w
  = load_each fs path_suffix str_lower rest documents w.
Proof.
  intros Hno. rewrite has_loader_cases in Hno. cbn [load_each].
  rewrite decide_False by tauto. rewrite decide_False by tauto.
  reflexivity.
Qed.

Lemma load_each_filter paths : forall documents (w : W),
  load_each fs path_suffix str_lower paths documents w
  = load_each fs path_suffix str_lower
      (filter (has_loader path_suffix str_lower) paths) documents w.
Proof.
  induction paths as [|file_path rest IH]; intros documents w;
    [reflexivity|].
  rewrite filter_cons.
  destruct (decide (has_loader path_suffix str_lower file_path)) as [Hyes|Hno].
  - cbn [load_each].
    destruct (decide (str_lower (path_suffix file_path) = py ".pdf")).
    + destruct (load_pdf_path fs file_path w) as [[docs|] w'];
        [apply IH | reflexivity].
    + destruct (decide (str_lower (path_suffix file_path)
                          ∈ [py ".md"; py ".txt"])).
      * destruct (load_markdown_path fs file_path w) as [[docs|] w'];
          [apply IH | reflexivity].
      * apply IH.
  - rewrite load_each_skip by exact Hno. apply IH.
Qed.

Lemma load_each_none paths : forall documents (w : W),
  Forall (fun p => ~ has_loader path_suffix str_lower p) paths ->
  load_each fs path_suffix str_lower paths documents w = (Some documents, w).
Proof.
  induction paths as [|file_path rest IH]; intros documents w Hall;
    [reflexivity|].
  apply Forall_cons in Hall as [Hno Hall].
  rewrite load_each_skip by exact Hno. apply IH, Hall.
Qed.

Lemma load_each_prefix paths : forall documents (w : W) out w',
  load_each fs path_suffix str_lower paths documents w = (Some out, w') ->
  documents `prefix_of` out.
Proof.
  induction paths as [|file_path rest IH]; intros documents w out w' Heq;
    cbn [load_each] in Heq.
  - injection Heq as <- _. reflexivity.
  - destruct (decide (str_lower (path_suffix file_path) = py ".pdf")).
    + destruct (load_pdf_path fs file_path w) as [[docs|] w1];
        [|discriminate].
      etransitivity; [apply prefix_app_r; reflexivity | exact (IH _ _ _ _ Heq)].
    + destruct (decide (str_lower (path_suffix file_path)
                          ∈ [py ".md"; py ".txt"])).
      * destruct (load_markdown_path fs file_path w) as [[docs|] w1];
          [|discriminate].
        etransitivity;
          [apply prefix_app_r; reflexivity | exact (IH _ _ _ _ Heq)].
      * exact (IH _ _ _ _ Heq).
Qed.

Lemma pdf_not_markdown : py ".pdf" ∉ [py ".md"; py ".txt"].
Proof. apply (bool_decide_unpack _). vm_compute. exact I. Qed.

Lemma pdf_has_loader file_path :
  str_lower (path_suffix file_path) = py ".pdf" ->
  has_loader path_suffix str_lower file_path.
Proof. intros H. apply has_loader_cases. left. exact H. Qed.

Lemma markdown_has_loader file_path :
  str_lower (path_suffix file_path) ∈ [py ".md"; py ".txt"] ->
  has_loader path_suffix str_lower file_path.
Proof. intros H. apply has_loader_cases. right. exact H. Qed.

Lemma markdown_not_pdf file_path :
  str_lower (path_suffix file_path) ∈ [py ".md"; py ".txt"] ->
  str_lower (path_suffix file_path) <> py ".pdf".
Proof. intros H Heq. rewrite Heq in H. exact (pdf_not_markdown H). Qed.

(** One turn of the loop, by the case of the path. *)
Lemma load_each_pdf file_path rest documents (w : W) :
  str_lower (path_suffix file_path) = py ".pdf" ->
  load_each fs path_suffix str_lower (file_path :: rest) documents w
  = match load_pdf_path fs file_path w with
    | (Some docs, w') =>
        load_each fs path_suffix str_lower rest (documents ++ docs) w'
    | (None, w') => (None, w')
    end.
Proof.
  intros H. cbn [load_each]. rewrite decide_True by exact H. reflexivity.
Qed.

Lemma load_each_markdown file_path rest documents (w : W) :
  str_lower (path_suffix file_path) ∈ [py ".md"; py ".txt"] ->
  load_each fs path_suffix str_lower (file_path :: rest) documents w
  = match load_markdown_path fs file_path w with
    | (Some docs, w') =>
        load_each fs path_suffix str_lower rest (documents ++ docs) w'
    | (None, w') => (None, w')
    end.
Proof.
  intros H. cbn [load_each].
  rewrite decide_False by exact (markdown_not_pdf _ H).
  rewrite decide_True by exact H. reflexivity.
Qed.

(** The three cases of a path. *)
Lemma path_cases file_path :
  str_lower (path_suffix file_path) = py ".pdf" \/
  str_lower (path_suffix file_path) ∈ [py ".md"; py ".txt"] \/
  ~ has_loader path_suffix str_lower file_path.
Proof.
  destruct (decide (has_loader path_suffix str_lower file_path)) as [H|H];
    [apply has_loader_cases in H; tauto | tauto].
Qed.

(** The loop does what [loaded_in_order] asks, after the documents it
    starts from. *)
Lemma load_each_sound paths : forall documents (w : W) out w',
  loaded_in_order fs path_suffix str_lower paths w out w' ->
  load_each fs path_suffix str_lower paths documents w
  = (Some (documents ++ out), w').
Proof.
  intros documents w out w' Hrel. revert documents.
  induction Hrel as [w | file_path rest w out w' Hno _ IH
                     | file_path rest w docs w1 out w' Hsuffix Hload _ IH
                     | file_path rest w docs w1 out w' Hsuffix Hload _ IH];
    intros documents.
  - cbn [load_each]. rewrite app_nil_r. reflexivity.
  - rewrite load_each_skip by exact Hno. apply IH.
  - rewrite load_each_pdf by exact Hsuffix. rewrite Hload, IH, app_assoc.
    reflexivity.
  - rewrite load_each_markdown by exact Hsuffix.
    rewrite Hload, IH, app_assoc. reflexivity.
Qed.

(** The loop stops at the first load that raises. *)
Lemma load_each_stops before : forall file_path after documents
    (w : W) out w2 w',
  loaded_in_order fs path_suffix str_lower before w out w2 ->
  load_raises fs path_suffix str_lower file_path w2 w' ->
  load_each fs path_suffix str_lower (before ++ file_path :: after)
    documents w
  = (None, w').
Proof.
  intros file_path after documents w out w2 w' Hrel Hraises.
  revert documents.
  induction Hrel as [w | p rest w out w2 Hno _ IH
                     | p rest w docs w1 out w2 Hsuffix Hload _ IH
                     | p rest w docs w1 out w2 Hsuffix Hload _ IH];
    intros documents; cbn [app].
  - destruct Hraises as [[Hsuffix Hload]|[Hsuffix Hload]].
    + rewrite load_each_pdf by exact Hsuffix. rewrite Hload. reflexivity.
    + rewrite load_each_markdown by exact Hsuffix. rewrite Hload.
      reflexivity.
  - rewrite load_each_skip by exact Hno. apply IH, Hraises.
  - rewrite load_each_pdf by exact Hsuffix. rewrite Hload.
    apply IH, Hraises.
  - rewrite load_each_markdown by exact Hsuffix. rewrite Hload.
    apply IH, Hraises.
Qed.

(** Whatever the loaders do, the loop either loads every path that has
    a loader or stops at the first load that raises. *)
Lemma load_each_complete paths : forall (w : W),
  (exists out w', loaded_in_order fs path_suffix str_lower paths w out w') \/
  (exists before file_path after out w2 w',
     paths = before ++ file_path :: after /\
     loaded_in_order fs path_suffix str_lower before w out w2 /\
     load_raises fs path_suffix str_lower file_path w2 w').
Proof.
  induction paths as [|p rest IH]; intros w.
  - left. eexists _, _. constructor.
  - assert (Hcons : forall (w1 : W),
      (forall out w', loaded_in_order fs path_suffix str_lower rest w1 out w' ->
         exists out', loaded_in_order fs path_suffix str_lower (p :: rest)
                         w out' w') ->
      (forall before out w2,
         loaded_in_order fs path_suffix str_lower before w1 out w2 ->
         exists out', loaded_in_order fs path_suffix str_lower (p :: before)
                        w out' w2) ->
      (exists out w', loaded_in_order fs path_suffix str_lower (p :: rest)
                        w out w') \/
      (exists before file_path after out w2 w',
         p :: rest = before ++ file_path :: after /\
         loaded_in_order fs path_suffix str_lower before w out w2 /\
         load_raises fs path_suffix str_lower file_path w2 w')).
    { intros w1 Hall Hpre.
      destruct (IH w1) as [(out & w' & Hrel)
                          |(before & q & after & out & w2 & w' & -> & Hrel
                            & Hraises)].
      - left. destruct (Hall _ _ Hrel) as [out' Hrel']. eexists _, _.
        exact Hrel'.
      - right. destruct (Hpre _ _ _ Hrel) as [out' Hrel'].
        exists (p :: before), q, after, out', w2, w'.
        split; [reflexivity|]. split; [exact Hrel' | exact Hraises]. }
    destruct (path_cases p) as [Hsuffix|[Hsuffix|Hno]].
    + destruct (load_pdf_path fs p w) as [[docs|] w1] eqn:Hload.
      * apply (Hcons w1); intros; eexists;
          eapply loaded_pdf; eassumption.
      * right. exists [], p, rest, [], w, w1. split; [reflexivity|].
        split; [constructor | left; split; assumption].
    + destruct (load_markdown_path fs p w) as [[docs|] w1] eqn:Hload.
      * apply (Hcons w1); intros; eexists;
          eapply loaded_markdown; eassumption.
      * right. exists [], p, rest, [], w, w1. split; [reflexivity|].
        split; [constructor | right; split; assumption].
    + apply (Hcons w); intros; eexists;
        eapply loaded_skip; eassumption.
Qed.

(** The loop, characterised: it returns exactly what [loaded_in_order]
    gives, and it raises exactly at the first load that raises. *)
Lemma load_each_returns paths (w : W) out w' :
  load_each fs path_suffix str_lower paths [] w = (Some out, w') <->
  loaded_in_order fs path_suffix str_lower paths w out w'.
Proof.
  split.
  - intros Heq.
    destruct (load_each_complete paths w)
      as [(out0 & w0 & Hrel)
         |(before & q & after & out0 & w2 & w0 & -> & Hrel & Hraises)].
    + rewrite (load_each_sound _ [] _ _ _ Hrel) in Heq.
      injection Heq as <- <-. exact Hrel.
    + rewrite (load_each_stops _ _ _ [] _ _ _ _ Hrel Hraises) in Heq.
      discriminate Heq.
  - intros Hrel. exact (load_each_sound _ [] _ _ _ Hrel).
Qed.

Lemma load_each_raises paths (w : W) w' :
  load_each fs path_suffix str_lower paths [] w = (None, w') <->
  exists before file_path after out w2,
    paths = before ++ file_path :: after /\
    loaded_in_order fs path_suffix str_lower before w out w2 /\
    load_raises fs path_suffix str_lower file_path w2 w'.
Proof.
  split.
  - intros Heq.
    destruct (load_each_complete paths w)
      as [(out0 & w0 & Hrel)
         |(before & q & after & out0 & w2 & w0 & -> & Hrel & Hraises)].
    + rewrite (load_each_sound _ [] _ _ _ Hrel) in Heq. discriminate Heq.
    + rewrite (load_each_stops _ _ _ [] _ _ _ _ Hrel Hraises) in Heq.
      injection Heq as <-. eexists _, _, _, _, _.
      split; [reflexivity|]. split; [exact Hrel | exact Hraises].
  - intros (before & q & after & out & w2 & -> & Hrel & Hraises).
    exact (load_each_stops _ _ _ [] _ _ _ _ Hrel Hraises).
Qed.
End LoadFacts.

(** X4: [load_directory] goes through the sorted paths of the directory
    once and in order.  A path whose lowered suffix is ".pdf" is loaded
    by the loader of PDF files, a path with ".md" or ".txt" by the
    loader of text files, and any other path is passed over without a
    call and without an error; those are the suffixes the upload
    accepts.  The result is what the loads gave, concatenated in the
    order of the paths, and the world is the one the last load left.
    The first load that raises ends the run with its exception.  A
    directory with no loadable path gives the empty list. *)
Theorem load_directory_skips {W : Type} (fs : Loaders W)
    (path_suffix str_lower : pystr -> pystr)
    (dir_path : pystr) (w : W) (paths : list pystr) (w1 : W) :
  sorted_rglob fs dir_path w = (Some paths, w1) ->
  (forall out w',
     load_directory fs path_suffix str_lower dir_path w = (Some out, w') <->
     loaded_in_order fs path_suffix str_lower paths w1 out w') /\
  (forall w',
     load_directory fs path_suffix str_lower dir_path w = (None, w') <->
     exists before file_path after out w2,
       paths = before ++ file_path :: after /\
       loaded_in_order fs path_suffix str_lower before w1 out w2 /\
       load_raises fs path_suffix str_lower file_path w2 w') /\
  (Forall (fun p => ~ has_loader path_suffix str_lower p) paths ->
   load_directory fs path_suffix str_lower dir_path w = (Some [], w1)) /\
  (forall p, has_loader path_suffix str_lower p <->
             str_lower (path_suffix p) ∈ [py ".pdf"; py ".md"; py ".txt"]).
Proof.
  intros Hlist. unfold load_directory. rewrite Hlist.
  split; [intros out w'; apply load_each_returns|].
  split; [intros w'; apply load_each_raises|].
  split; [apply load_each_none | reflexivity].
Qed.

(** Of the four files of the directory, the Word document is passed
    over and the other three are loaded, each by its loader, in the
    order of the listing. *)
Lemma load_directory_skips_witness :
  load_directory (Demo.files Demo.listing) Demo.path_suffix Demo.str_lower
    (py "docs") 0%nat
  = (Some [ {| page_content := py "text";
               metadata := {| md_source := Some (py "docs/a.md");
                              md_page := None |} |};
            {| page_content := py "pdf";
               metadata := {| md_source := Some (py "docs/b.PDF");
                              md_page := Some (MInt 0) |} |};
            {| page_content := py "text";
               metadata := {| md_source := Some (py "docs/notes.txt");
                              md_page := None |} |} ], 3%nat).
Proof.
  apply (proj1 (load_directory_skips (Demo.files Demo.listing)
                  Demo.path_suffix Demo.str_lower (py "docs") 0%nat
                  Demo.listing 0%nat eq_refl)).
  apply (loaded_markdown _ _ _ (py "docs/a.md") _ 0%nat
           [ {| page_content := py "text";
                metadata := {| md_source := Some (py "docs/a.md");
                               md_page := None |} |} ] 1%nat
           [ {| page_content := py "pdf";
                metadata := {| md_source := Some (py "docs/b.PDF");
                               md_page := Some (MInt 0) |} |};
             {| page_content := py "text";
                metadata := {| md_source := Some (py "docs/notes.txt");
                               md_page := None |} |} ] 3%nat);
    [apply (bool_decide_unpack _); vm_compute; exact I | reflexivity |].
  apply (loaded_pdf _ _ _ (py "docs/b.PDF") _ 1%nat
           [ {| page_content := py "pdf";
                metadata := {| md_source := Some (py "docs/b.PDF");
                               md_page := Some (MInt 0) |} |} ] 2%nat
           [ {| page_content := py "text";
                metadata := {| md_source := Some (py "docs/notes.txt");
                               md_page := None |} |} ] 3%nat);
    [vm_compute; reflexivity | reflexivity |].
  apply loaded_skip;
    [apply (bool_decide_unpack _); vm_compute; exact I |].
  apply (loaded_markdown _ _ _ (py "docs/notes.txt") _ 2%nat
           [ {| page_content := py "text";
                metadata := {| md_source := Some (py "docs/notes.txt");
                               md_page := None |} |} ] 3%nat [] 3%nat);
    [apply (bool_decide_unpack _); vm_compute; exact I | reflexivity |].
  apply loaded_nil.
Defined.

Example load_directory_example :
  load_directory (Demo.files Demo.listing) Demo.path_suffix Demo.str_lower
    (py "docs") 0%nat
  = (Some [ {| page_content := py "text";
               metadata := {| md_source := Some (py "docs/a.md");
                              md_page := None |} |};
            {| page_content := py "pdf";
               metadata := {| md_source := Some (py "docs/b.PDF");
                              md_page := Some (MInt 0) |} |};
            {| page_content := py "text";
               metadata := {| md_source := Some (py "docs/notes.txt");
                              md_page := None |} |} ], 3%nat).
Proof. vm_compute. reflexivity. Qed.

(* ================================================================== *)
(** * The ingestion script *)

(** X5: when the directory holds no file with a loader, [main] prints
    the error and returns: the splitter and the store are not called,
    and the world is as the listing left it. *)
Theorem ingest_main_nothing_to_load {W : Type} (svc : IngestServices W)
    (path_suffix str_lower : pystr -> pystr) (settings : Settings)
    (persist_directory embedding_model sample_dir : pystr)
    (w : W) (paths : list pystr) (w1 : W) :
  sorted_rglob (ingest_loaders svc) sample_dir w = (Some paths, w1) ->
  Forall (fun p => ~ has_loader path_suffix str_lower p) paths ->
  ingest_main svc path_suffix str_lower settings persist_directory
    embedding_model sample_dir w
  = ((Some tt,
      [INGEST_TITLE; INGEST_DIRECTORY ++ sample_dir;
       INGEST_STORE ++ persist_directory; INGEST_MODEL ++ embedding_model;
       []; INGEST_STEP_1; INGEST_NOTHING; sample_dir ++ INGEST_HINT]), w1).
Proof.
  intros Hlist Hnone. unfold ingest_main, load_directory.
  rewrite Hlist, (load_each_none _ _ _ _ _ _ Hnone). reflexivity.
Qed.

Lemma ingest_main_nothing_to_load_witness :
  snd (ingest_main (Demo.ingest [py "docs/c.docx"; py "docs/README"])
         Demo.path_suffix Demo.str_lower Demo.settings (py "./db")
         (py "bge-m3") (py "docs") 0%nat) = 0%nat.
Proof.
  rewrite (ingest_main_nothing_to_load
             (Demo.ingest [py "docs/c.docx"; py "docs/README"])
             Demo.path_suffix Demo.str_lower Demo.settings (py "./db")
             (py "bge-m3") (py "docs") 0%nat
             [py "docs/c.docx"; py "docs/README"] 0%nat eq_refl).
  - reflexivity.
  - repeat constructor; apply (bool_decide_unpack _); vm_compute; exact I.
Defined.

(** With files to load, the store is created: the world passes
    through three loads, the splitter and the store. *)
Example ingest_main_example :
  let r := ingest_main (Demo.ingest Demo.listing) Demo.path_suffix
             Demo.str_lower Demo.settings (py "./db") (py "bge-m3")
             (py "docs") 0%nat in
  fst (fst r) = Some tt /\ snd r = 1103%nat /\
  length (snd (fst r)) = 14%nat.
Proof. vm_compute. repeat split. Qed.


(* ================================================================== *)
(** * What the nodes ask of the services *)

Lemma omap_none {A B : Type} (f : A -> option B) (P : A -> Prop)
    (l : list A) :
  (forall a, P a -> f a = None) -> Forall P l -> omap f l = [].
Proof.
  intros Hf. induction 1 as [|a l Ha _ IH]; [reflexivity|].
  cbn. rewrite (Hf a Ha). exact IH.
Qed.

Lemma length_omap_le {A B : Type} (f : A -> option B) (l : list A) :
  (length (omap f l) <= length l)%nat.
Proof.
  induction l as [|a l IH]; [reflexivity|].
  cbn. destruct (f a); cbn; lia.
Qed.

Lemma llm_calls_app (t1 t2 : list Event) :
  llm_calls (t1 ++ t2) = (llm_calls t1 + llm_calls t2)%nat.
Proof. unfold llm_calls. rewrite filter_app, length_app. reflexivity. Qed.

Section CallFacts.
Context {W : Type} (caps : Capabilities W).

Lemma search_each_asks qs : forall all_documents (s : Sys W),
  exists t,
    trace (snd (search_each caps qs all_documents s)) = trace s ++ t /\
    Forall (fun e => exists q, e = EvSimilaritySearch q 3 /\ q ∈ qs) t /\
    (length t <= length qs)%nat.
Proof.
  induction qs as [|q qs IH]; intros all_documents s; cbn [search_each].
  - exists []. rewrite app_nil_r. repeat split; [constructor | reflexivity].
  - unfold bind, similarity_search, call.
    destruct (chroma_similarity_search caps q 3 (world s)) as [[docs|] w'].
    + destruct (IH (all_documents ++ docs)
                  {| world := w';
                     trace := trace s ++ [EvSimilaritySearch q 3] |})
        as (t & Ht & Hall & Hlen).
      exists (EvSimilaritySearch q 3 :: t). rewrite Ht. cbn [trace].
      rewrite <- app_assoc. split; [reflexivity|]. split; [|cbn; lia].
      constructor; [exists q; split; [reflexivity | left]|].
      eapply Forall_impl; [exact Hall|].
      intros e (q' & -> & Hin). exists q'. split; [reflexivity | right; exact Hin].
    + exists [EvSimilaritySearch q 3]. cbn [snd trace].
      split; [reflexivity|]. split; [|cbn; lia].
      repeat constructor. exists q. split; [reflexivity | left].
Qed.

(** Every node asks only what [asks] allows, and at most
    [calls_at_most] times. *)
Lemma node_function_asks n state (s : Sys W) :
  exists t,
    trace (snd (node_function caps n state s)) = trace s ++ t /\
    Forall (asks n state) t /\
    (length t <= calls_at_most n state)%nat.
Proof.
  destruct n; cbn [node_function calls_at_most].
  - unfold analyze_query, query_analyzer_invoke, bind, call.
    exists [EvQueryAnalyzer (analyzer_question state)].
    split; [|split; [repeat constructor | reflexivity]].
    destruct (structured_llm_queries caps (analyzer_question state)
                (world s)) as [[raw|] w'];
      [destruct (SearchQueries.validate raw)|]; reflexivity.
  - unfold retrieve_documents, bind.
    destruct (search_each_asks (search_queries state) [] s)
      as (t & Ht & Hall & Hlen).
    exists t. split; [|split; [|exact Hlen]].
    + destruct (search_each caps (search_queries state) [] s)
        as [[e|docs] s1]; exact Ht.
    + eapply Forall_impl; [exact Hall|].
      intros e (q & -> & Hin). split; [reflexivity | exact Hin].
  - unfold generate_answer, answer_generator_invoke, bind, call.
    exists [EvAnswerGenerator (query state)
              (format_documents (retrieved_documents state))].
    split; [|split; [repeat constructor | reflexivity]].
    destruct (llm_answer caps (query state)
                (format_documents (retrieved_documents state)) (world s))
      as [[a|] w']; reflexivity.
  - unfold evaluate_answer, evaluator_invoke, bind, call.
    exists [EvEvaluator (query state) (answer state)].
    split; [|split; [repeat constructor | reflexivity]].
    destruct (structured_llm_evaluation caps (query state) (answer state)
                (world s)) as [[raw|] w'];
      [destruct (EvaluationResult.validate raw)|]; reflexivity.
  - exists []. rewrite app_nil_r.
    split; [reflexivity|]. split; [constructor | reflexivity].
Qed.

Lemma graph_step_asks n state (s : Sys W) :
  exists t,
    trace (snd (graph_step caps n state s)) = trace s ++ EvNode n :: t /\
    Forall (asks n state) t /\
    (length t <= calls_at_most n state)%nat.
Proof.
  rewrite graph_step_snd.
  destruct (node_function_asks n state (logged n s)) as (t & Ht & Hall & Hlen).
  exists t. rewrite Ht. cbn [logged trace]. rewrite <- app_assoc.
  split; [reflexivity|]. split; assumption.
Qed.

(** The searches and the calls of the model among what a node asks. *)
Lemma asks_counts n state (t : list Event) :
  Forall (asks n state) t ->
  (length t <= calls_at_most n state)%nat ->
  (length (searches_of t)
   <= if decide (n = retrieve_documents_node)
      then length (search_queries state) else 0)%nat /\
  (llm_calls t
   <= match n with
      | analyze_query_node | generate_answer_node | evaluate_answer_node => 1
      | _ => 0
      end)%nat /\
  (n <> evaluate_answer_node -> evaluations_of t = []).
Proof.
  intros Hall Hlen.
  pose proof (length_omap_le
                (fun e => match e with
                          | EvSimilaritySearch q k => Some (q, k)
                          | _ => None
                          end) t) as Hs.
  fold (searches_of t) in Hs.
  pose proof (length_filter is_llm_call t) as Hl. fold (llm_calls t) in Hl.
  assert (Hno_search : n <> retrieve_documents_node -> searches_of t = []).
  { intros Hn. apply (omap_none _ (asks n state)); [|exact Hall].
    intros e He. destruct n, e; cbn in He; try contradiction;
      try reflexivity; congruence. }
  assert (Hno_llm : n = retrieve_documents_node \/ n = END -> llm_calls t = 0%nat).
  { intros Hn. unfold llm_calls.
    replace (filter is_llm_call t) with (@nil Event); [reflexivity|].
    symmetry. apply elem_of_nil_inv. intros e He.
    apply list_elem_of_filter in He as [Hllm He].
    rewrite Forall_forall in Hall. specialize (Hall e He).
    destruct Hn as [-> | ->], e; cbn in Hall, Hllm; contradiction. }
  split; [|split].
  - destruct (decide (n = retrieve_documents_node)) as [->|Hn].
    + cbn [calls_at_most] in Hlen. lia.
    + rewrite (Hno_search Hn). reflexivity.
  - destruct n; cbn [calls_at_most] in Hlen; try lia;
      rewrite Hno_llm by tauto; reflexivity.
  - intros Hn. apply (omap_none _ (asks n state)); [|exact Hall].
    intros e He. destruct n, e; cbn in He; try contradiction;
      try reflexivity; congruence.
Qed.

(** A step that leads to retrieval leaves one to five queries. *)
Lemma step_to_retrieve n state (s : Sys W) state' s' :
  graph_step caps n state s
  = (inr (retrieve_documents_node, state'), s') ->
  (1 <= length (search_queries state') <= 5)%nat.
Proof.
  intros Hstep. pose proof Hstep as Hnext.
  apply graph_step_inr in Hnext as (u & _ & _ & Hnext).
  destruct n; cbn [next_node] in Hnext; try discriminate.
  - apply analyze_step_valid in Hstep as (raw & w' & _ & _ & Hlen).
    exact Hlen.
  - rewrite conditional_edge_taken in Hnext.
    destruct (is_sufficient state'); [discriminate|].
    destruct (iteration state' >=? MAX_ITERATIONS); discriminate.
Qed.

Lemma visits_left_here n state :
  n <> END -> (1 <= visits_left n n state)%nat.
Proof.
  intros Hn. pose proof (evaluations_left_pos state) as Hpos.
  unfold visits_left. destruct n; try congruence;
    rewrite Nat.leb_refl; exact Hpos.
Qed.

(** What a run asks in all: at most five searches for each retrieval
    it may still make, and one call of the model for each analysis,
    generation and evaluation. *)
Lemma run_graph_budget fuel : forall n state (s : Sys W),
  (n = retrieve_documents_node ->
   (length (search_queries state) <= 5)%nat) ->
  exists t,
    trace (snd (run_graph caps fuel n state s)) = trace s ++ t /\
    (length (searches_of t)
     <= 5 * visits_left retrieve_documents_node n state)%nat /\
    (llm_calls t
     <= visits_left analyze_query_node n state
        + visits_left generate_answer_node n state
        + visits_left evaluate_answer_node n state)%nat.
Proof.
  induction fuel as [|fuel IH]; intros n state s Hqueries;
    destruct (decide (n = END)) as [->|Hn];
    try (rewrite run_graph_END; exists []; rewrite app_nil_r;
         split; [reflexivity|]; split; cbn; lia).
  - rewrite run_graph_O by exact Hn. exists []. rewrite app_nil_r.
    split; [reflexivity|]. split; cbn; lia.
  - rewrite run_graph_step by exact Hn. unfold bind.
    destruct (graph_step_asks n state s) as (t1 & Ht1 & Hall & Hlen).
    destruct (asks_counts n state t1 Hall Hlen) as (Hs1 & Hl1 & _).
    assert (Hs1' : (length (searches_of t1)
                    <= 5 * (if decide (retrieve_documents_node = n)
                            then 1 else 0))%nat).
    { destruct (decide (n = retrieve_documents_node)) as [->|Hne].
      - rewrite decide_True by reflexivity. specialize (Hqueries eq_refl). lia.
      - rewrite decide_False by congruence. lia. }
    assert (Hhead : forall t, searches_of (EvNode n :: t) = searches_of t)
      by reflexivity.
    assert (Hhead' : forall t, llm_calls (EvNode n :: t) = llm_calls t)
      by reflexivity.
    destruct (graph_step caps n state s) as [[e|[n' state']] s1] eqn:Hstep;
      cbn [fst snd] in *.
    + exists (EvNode n :: t1). split; [exact Ht1|].
      rewrite Hhead, Hhead'.
      pose proof (visits_left_here n state Hn) as Hhere.
      clear - Hs1' Hl1 Hhere Hn.
      destruct n; [..|congruence];
        destruct (decide _) in Hs1'; try discriminate; lia.
    + assert (Hinv : n' = retrieve_documents_node ->
                     (length (search_queries state') <= 5)%nat).
      { intros ->. apply step_to_retrieve in Hstep. lia. }
      destruct (IH n' state' s1 Hinv) as (t2 & Ht2 & Hs2 & Hl2).
      apply steps_decrease in Hstep as [_ Hdec]; [|exact Hn].
      pose proof (Hdec analyze_query_node ltac:(discriminate)) as Ha.
      pose proof (Hdec retrieve_documents_node ltac:(discriminate)) as Hr.
      pose proof (Hdec generate_answer_node ltac:(discriminate)) as Hg.
      pose proof (Hdec evaluate_answer_node ltac:(discriminate)) as He.
      exists ((EvNode n :: t1) ++ t2). rewrite Ht2, Ht1, app_assoc.
      split; [reflexivity|].
      rewrite searches_of_app, length_app, Hhead.
      rewrite llm_calls_app, Hhead'.
      clear - Hs1' Hl1 Hs2 Hl2 Ha Hr Hg He Hn.
      destruct n; [..|congruence];
        repeat (rewrite decide_False in * by discriminate);
        repeat (rewrite decide_True in * by reflexivity); lia.
Qed.
End CallFacts.


(* ================================================================== *)
(** * How a run ends *)

Section ReachFacts.
Context {W : Type} (caps : Capabilities W).

Lemma asks_service_call n state (t : list Event) :
  Forall (asks n state) t -> Forall is_service_call t.
Proof.
  intros Hall. eapply Forall_impl; [exact Hall|].
  intros e He. destruct e; cbn; [|exact I..].
  destruct n; exact He.
Qed.

(** The evaluation step asks the evaluator once, about the question
    and the answer of the state, and leaves both as they are. *)
Lemma evaluate_step_trace n' state (s : Sys W) state' s' :
  graph_step caps evaluate_answer_node state s = (inr (n', state'), s') ->
  trace s' = trace s ++ [EvNode evaluate_answer_node;
                         EvEvaluator (query state) (answer state)] /\
  answer state' = answer state /\
  query state' = query state /\
  iteration state' = iteration state + 1 /\
  (n' = END ->
   is_sufficient state' = true \/ iteration state' >= MAX_ITERATIONS).
Proof.
  intros Hstep.
  pose proof (graph_step_frame caps _ _ _ _ _ _ Hstep) as (Hq & Hi & _).
  rewrite decide_True in Hi by reflexivity.
  apply graph_step_inr in Hstep as (u & Hnode & -> & Hnext).
  cbn [node_function] in Hnode. unfold evaluate_answer in Hnode.
  apply bind_inr in Hnode as (result & s1 & Hinvoke & Hret).
  injection Hret as <- <-. unfold evaluator_invoke in Hinvoke.
  apply bind_inr in Hinvoke as (raw & s2 & Hcall & Hvalid).
  apply call_inr in Hcall as (w' & _ & ->).
  destruct (EvaluationResult.validate raw); [|discriminate].
  injection Hvalid as _ <-. cbn [trace logged]. rewrite <- app_assoc.
  split; [reflexivity|]. split; [reflexivity|]. split; [exact Hq|].
  split; [exact Hi|]. intros ->.
  cbn [next_node] in Hnext. rewrite conditional_edge_taken in Hnext.
  destruct (is_sufficient _); [left; reflexivity|].
  destruct (Z.geb_spec (iteration
             (apply_update state
                {| upd_query := None; upd_search_queries := None;
                   upd_retrieved_documents := None; upd_answer := None;
                   upd_is_sufficient :=
                     Some (EvaluationResult.is_sufficient result);
                   upd_evaluation_reason :=
                     Some (EvaluationResult.reason result);
                   upd_iteration := Some (iteration state + 1) |}))
             MAX_ITERATIONS) as [Hge|Hlt]; [right; lia | discriminate].
Qed.

Lemma step_END (c c' : Config W) :
  steps_to caps c c' -> at_node c' = END ->
  at_node c = evaluate_answer_node.
Proof.
  intros [Hn Hstep] Hend.
  apply graph_step_inr in Hstep as (u & _ & _ & Hnext).
  rewrite Hend in Hnext.
  destruct (at_node c); cbn [next_node] in Hnext;
    congruence || discriminate.
Qed.

Lemma reaches_from_END (c c' : Config W) :
  reaches caps c c' -> at_node c = END -> c' = c.
Proof.
  intros Hreach Hend. apply rtc_inv in Hreach as [<-|(c1 & [Hn _] & _)];
    [reflexivity | contradiction].
Qed.

(** A run that gets to [END] gets there by an evaluation step. *)
Lemma reaches_END_last (c c' : Config W) :
  reaches caps c c' -> at_node c <> END -> at_node c' = END ->
  exists c0,
    reaches caps c c0 /\ at_node c0 = evaluate_answer_node /\
    steps_to caps c0 c'.
Proof.
  induction 1 as [c|c c1 c' Hstep Hrest IH]; intros Hn Hend;
    [contradiction|].
  destruct (decide (at_node c1 = END)) as [Hc1|Hc1].
  - apply reaches_from_END in Hrest; [|exact Hc1]. subst c'.
    exists c. split; [apply rtc_refl|].
    split; [exact (step_END _ _ Hstep Hend) | exact Hstep].
  - destruct (IH Hc1 Hend) as (c0 & Hreach & Hnode & Hlast).
    exists c0. split; [eapply rtc_l; eassumption|]. split; assumption.
Qed.

(** Along a run [iteration] counts the evaluation steps, and each of
    them called the evaluator once. *)
Lemma reaches_iterations (c c' : Config W) :
  reaches caps c c' ->
  exists t,
    trace (at_sys c') = trace (at_sys c) ++ t /\
    iteration (at_state c')
    = iteration (at_state c)
      + Z.of_nat (passes_through evaluate_answer_node t) /\
    length (evaluations_of t) = passes_through evaluate_answer_node t.
Proof.
  induction 1 as [c|c c1 c' [Hn Hstep] _ IH].
  - exists []. rewrite app_nil_r. cbn. split; [reflexivity|]. split; [lia|].
    reflexivity.
  - destruct IH as (t2 & Ht2 & Hi2 & He2).
    destruct (graph_step_asks caps (at_node c) (at_state c) (at_sys c))
      as (t1 & Ht1 & Hall & Hlen).
    rewrite Hstep in Ht1. cbn [snd] in Ht1.
    pose proof (graph_step_frame caps _ _ _ _ _ _ Hstep) as (_ & Hi1 & _).
    pose proof (passes_through_step evaluate_answer_node (at_node c) t1
                  (asks_service_call _ _ _ Hall)) as Hp1.
    assert (He1 : length (evaluations_of (EvNode (at_node c) :: t1))
                  = passes_through evaluate_answer_node
                      (EvNode (at_node c) :: t1)).
    { rewrite Hp1.
      destruct (decide (evaluate_answer_node = at_node c)) as [Heq|Hne].
      - rewrite <- Heq in Hstep.
        apply evaluate_step_trace in Hstep as (Htr & _).
        rewrite Ht1 in Htr. apply app_inv_head in Htr.
        injection Htr as _ ->. reflexivity.
      - destruct (asks_counts (at_node c) (at_state c) t1 Hall Hlen)
          as (_ & _ & Hnone).
        change (evaluations_of (EvNode (at_node c) :: t1))
          with (evaluations_of t1).
        rewrite Hnone by congruence. reflexivity. }
    exists ((EvNode (at_node c) :: t1) ++ t2).
    rewrite Ht2, Ht1, app_assoc. split; [reflexivity|].
    rewrite passes_through_app.
    unfold evaluations_of in *. rewrite omap_app, length_app.
    split; [|lia]. rewrite Hi2, Hi1, Hp1.
    destruct (decide (at_node c = evaluate_answer_node)) as [Heq|Hne].
    + rewrite decide_True by congruence. lia.
    + rewrite decide_False by congruence. lia.
Qed.

Lemma reaches_config_after k : forall c : Config W,
  reaches caps c (config_after caps k c).
Proof.
  induction k as [|k IH]; intros c; cbn [config_after]; [apply rtc_refl|].
  destruct (decide (at_node c = END)) as [Hend|Hn].
  - rewrite Hend. apply rtc_refl.
  - destruct (graph_step caps (at_node c) (at_state c) (at_sys c))
      as [[e|[n' state']] s'] eqn:Hstep.
    + destruct (at_node c); apply rtc_refl.
    + assert (Hto : reaches caps c
                      (config_after caps k
                         {| at_node := n'; at_state := state';
                            at_sys := s' |})).
      { eapply rtc_l; [|apply IH]. split; [exact Hn | exact Hstep]. }
      destruct (at_node c); [exact Hto..|congruence].
Qed.

Lemma run_graph_raises_only fuel : forall n state (s : Sys W) e s',
  run_graph caps fuel n state s = (inl e, s') ->
  e = BackendError \/ e = ValidationError \/ e = GraphRecursionError.
Proof.
  induction fuel as [|fuel IH]; intros n state s e s' Hrun;
    destruct (decide (n = END)) as [->|Hn];
    try (rewrite run_graph_END in Hrun; discriminate).
  - rewrite run_graph_O in Hrun by exact Hn. injection Hrun as <- _. tauto.
  - rewrite run_graph_step in Hrun by exact Hn. unfold bind in Hrun.
    destruct (graph_step caps n state s) as [[e1|[n' state']] s1] eqn:Hstep.
    + injection Hrun as <- _.
      apply graph_step_raises_only in Hstep. tauto.
    + exact (IH _ _ _ _ _ Hrun).
Qed.

(** A step of the run of a request that raises ends the request: the
    exception reaches the caller with the world as the step left it. *)
Lemma query_aborts (request : QueryRequest.t) (s : Sys W) (c : Config W)
    e s1 :
  reaches caps (entry request s) c ->
  at_node c <> END ->
  graph_step caps (at_node c) (at_state c) (at_sys c) = (inl e, s1) ->
  routes.query caps request s = (inl e, s1).
Proof.
  intros Hreach Hend Hstep.
  destruct (reaches_raise caps _ _ _ _ Hreach Hend Hstep RECURSION_LIMIT)
    as [Hrun|[s2 Hrun]]; cbn [entry at_node at_state at_sys] in Hrun.
  - unfold routes.query. apply bind_inl.
    rewrite agent_invoke_unfold. exact Hrun.
  - exfalso.
    apply (run_graph_halts caps RECURSION_LIMIT analyze_query_node
             (initial_state (QueryRequest.question request)) s).
    + change (steps_left analyze_query_node
                (initial_state (QueryRequest.question request)))
        with 12%nat.
      unfold RECURSION_LIMIT. lia.
    + rewrite Hrun. reflexivity.
Qed.

(** The run behind a response. *)
Lemma query_reaches (request : QueryRequest.t) (s : Sys W) resp :
  fst (routes.query caps request s) = inr resp ->
  exists result s',
    routes.query caps request s = (inr resp, s') /\
    reaches caps (entry request s)
      {| at_node := END; at_state := result; at_sys := s' |} /\
    QueryResponse.answer resp = answer result /\
    QueryResponse.is_sufficient resp = is_sufficient result /\
    QueryResponse.iterations resp = iteration result.
Proof.
  unfold routes.query, bind.
  destruct (agent_invoke caps
              (initial_state (QueryRequest.question request)) s)
    as [[e|result] s'] eqn:Hinvoke; cbn [fst ret]; [discriminate|].
  intros Heq. injection Heq as <-. exists result, s'.
  split; [reflexivity|]. split; [|repeat split].
  rewrite agent_invoke_unfold in Hinvoke.
  exact (run_graph_reaches caps _ _ _ _ _ _ Hinvoke).
Qed.
End ReachFacts.


(* ================================================================== *)
(** * What a response says about the run *)

(** X6: the [iterations] of a response is the number of evaluations
    the run made, it lies between 1 and [MAX_ITERATIONS = 3], and a
    response that is not sufficient comes from a run that used all
    three. *)
Theorem response_iterations {W : Type} (caps : Capabilities W)
    (request : QueryRequest.t) (s : Sys W) (resp : QueryResponse.t) :
  fst (routes.query caps request s) = inr resp ->
  1 <= QueryResponse.iterations resp <= MAX_ITERATIONS /\
  (QueryResponse.is_sufficient resp = false ->
   QueryResponse.iterations resp = MAX_ITERATIONS) /\
  exists t,
    trace (snd (routes.query caps request s)) = trace s ++ t /\
    QueryResponse.iterations resp
    = Z.of_nat (passes_through evaluate_answer_node t) /\
    QueryResponse.iterations resp = Z.of_nat (length (evaluations_of t)).
Proof.
  intros Hresp.
  destruct (query_reaches caps request s resp Hresp)
    as (result & s' & Hquery & Hreach & _ & -> & ->).
  destruct (reaches_iterations caps _ _ Hreach) as (t & Ht & Hiter & Hevals).
  cbn [entry at_sys at_state initial_state iteration] in Ht, Hiter.
  pose proof (query_snd caps request s) as Hsnd.
  rewrite Hquery in Hsnd. cbn [snd] in Hsnd.
  destruct (reaches_END_last caps _ _ Hreach)
    as (c0 & Hreach0 & Hnode0 & [_ Hlast]); [discriminate | reflexivity |].
  rewrite Hnode0 in Hlast. cbn [at_node at_state at_sys] in Hlast.
  apply evaluate_step_trace in Hlast as (_ & _ & _ & Hi & Hterminal).
  apply reaches_frame in Hreach0 as (_ & Hmono & _).
  cbn [entry at_state initial_state iteration] in Hmono.
  specialize (Hterminal eq_refl).
  assert (Hupper : (passes_through evaluate_answer_node t <= 3)%nat).
  { destruct (run_graph_trace caps RECURSION_LIMIT analyze_query_node
                (initial_state (QueryRequest.question request)) s)
      as (t' & Ht' & Hbound & _).
    rewrite <- agent_invoke_unfold, <- Hsnd, Ht in Ht'.
    apply app_inv_head in Ht'. subst t'.
    apply (Hbound evaluate_answer_node). discriminate. }
  unfold MAX_ITERATIONS in *.
  split; [lia|]. split.
  - intros Hfalse. destruct Hterminal as [Htrue|Hge]; [congruence | lia].
  - exists t. rewrite Hquery. cbn [snd].
    split; [exact Ht|]. split; lia.
Qed.

Lemma response_iterations_witness :
  1 <= QueryResponse.iterations Demo.response_after_three <= MAX_ITERATIONS
  /\ (QueryResponse.is_sufficient Demo.response_after_three = false ->
       QueryResponse.iterations Demo.response_after_three = MAX_ITERATIONS).
Proof.
  destruct (response_iterations (Demo.caps Demo.two_queries Demo.never)
              (Demo.request 5) Demo.start Demo.response_after_three)
    as (Hrange & Hall & _).
  - vm_compute. reflexivity.
  - split; [exact Hrange | exact Hall].
Defined.

(** X7: the last thing the run behind a response did was to have the
    evaluator judge the answer that the response returns, against the
    question as the user asked it. *)
Theorem response_answer_is_evaluated {W : Type} (caps : Capabilities W)
    (request : QueryRequest.t) (s : Sys W) (resp : QueryResponse.t) :
  fst (routes.query caps request s) = inr resp ->
  exists before,
    trace (snd (routes.query caps request s))
    = before ++ [EvNode evaluate_answer_node;
                 EvEvaluator (QueryRequest.question request)
                   (QueryResponse.answer resp)].
Proof.
  intros Hresp.
  destruct (query_reaches caps request s resp Hresp)
    as (result & s' & Hrun & Hreach & -> & _ & _).
  destruct (reaches_END_last caps _ _ Hreach)
    as (c0 & Hreach0 & Hnode0 & [_ Hlast]); [discriminate | reflexivity |].
  rewrite Hnode0 in Hlast. cbn [at_node at_state at_sys] in Hlast.
  apply evaluate_step_trace in Hlast as (Htrace & Hanswer & _).
  apply reaches_frame in Hreach0 as (Hquery & _ & _).
  cbn [entry at_state initial_state query] in Hquery.
  exists (trace (at_sys c0)). rewrite Hrun. cbn [snd].
  rewrite Htrace, Hanswer, Hquery. reflexivity.
Qed.

Lemma response_answer_is_evaluated_witness :
  exists before,
    trace (snd (routes.query (Demo.caps Demo.two_queries Demo.at_once)
                  (Demo.request 5) Demo.start))
    = before ++ [EvNode evaluate_answer_node;
                 EvEvaluator (py "q") (py "draft")].
Proof.
  apply (response_answer_is_evaluated
           (Demo.caps Demo.two_queries Demo.at_once) (Demo.request 5)
           Demo.start Demo.response).
  vm_compute. reflexivity.
Defined.

(* ================================================================== *)
(** * Failures *)

(** X8: [query] fails only with the validation error of a schema or
    with the failure of a service, and it fails as soon as a step of
    the run does: the caller gets that exception, with the world and
    the log as the failing call left them, and no response. *)
Theorem query_failures {W : Type} (caps : Capabilities W)
    (request : QueryRequest.t) (s : Sys W) :
  (forall e, fst (routes.query caps request s) = inl e ->
             e = ValidationError \/ e = BackendError) /\
  (forall c e s1,
     reaches caps (entry request s) c ->
     at_node c <> END ->
     graph_step caps (at_node c) (at_state c) (at_sys c) = (inl e, s1) ->
     routes.query caps request s = (inl e, s1)).
Proof.
  split; [|intros c e s1; apply query_aborts].
  intros e. unfold routes.query, bind.
  destruct (agent_invoke caps
              (initial_state (QueryRequest.question request)) s)
    as [[e1|result] s'] eqn:Hinvoke; cbn [fst]; [|discriminate].
  intros Heq. injection Heq as ->.
  rewrite agent_invoke_unfold in Hinvoke.
  destruct (run_graph_raises_only caps _ _ _ _ _ _ Hinvoke)
    as [->|[->| ->]]; [tauto | tauto |].
  exfalso.
  apply (run_graph_halts caps RECURSION_LIMIT analyze_query_node
           (initial_state (QueryRequest.question request)) s).
  - change (steps_left analyze_query_node
              (initial_state (QueryRequest.question request)))
      with 12%nat.
    unfold RECURSION_LIMIT. lia.
  - rewrite Hinvoke. reflexivity.
Qed.

(** The store cannot be reached: the request fails at the first
    search. *)
Lemma query_failures_witness :
  routes.query Demo.store_down (Demo.request 5) Demo.start
  = (inl BackendError,
     {| world := 0%nat;
        trace := [EvNode analyze_query_node; EvQueryAnalyzer (py "q");
                  EvNode retrieve_documents_node;
                  EvSimilaritySearch Demo.alpha 3] |}).
Proof.
  apply (proj2 (query_failures Demo.store_down (Demo.request 5) Demo.start)
           (config_after Demo.store_down 1
              (entry (Demo.request 5) Demo.start))).
  - apply reaches_config_after.
  - vm_compute. discriminate.
  - vm_compute. reflexivity.
Defined.

(** X9: whatever the services answer, a request begins by sending the
    question, unchanged, to the query analyzer; it makes at most 15
    similarity searches, each with [k = 3], and calls the language
    model at most 9 times. *)
Theorem request_calls {W : Type} (caps : Capabilities W)
    (request : QueryRequest.t) (s : Sys W) :
  exists t,
    trace (snd (routes.query caps request s))
    = trace s ++ [EvNode analyze_query_node;
                  EvQueryAnalyzer (QueryRequest.question request)] ++ t /\
    (length (searches_of t) <= 15)%nat /\
    Forall (fun qk => snd qk = 3) (searches_of t) /\
    (llm_calls t <= 8)%nat.
Proof.
  rewrite query_snd, agent_invoke_unfold.
  set (state := initial_state (QueryRequest.question request)).
  destruct (run_graph_budget caps RECURSION_LIMIT analyze_query_node state s)
    as (t & Ht & Hsearches & Hllm); [discriminate|].
  destruct (run_graph_trace caps RECURSION_LIMIT analyze_query_node state s)
    as (t' & Ht' & _ & Hk3).
  rewrite Ht in Ht'. apply app_inv_head in Ht'. subst t'.
  change (visits_left retrieve_documents_node analyze_query_node state)
    with 3%nat in Hsearches.
  change (visits_left analyze_query_node analyze_query_node state
          + visits_left generate_answer_node analyze_query_node state
          + visits_left evaluate_answer_node analyze_query_node state)%nat
    with 9%nat in Hllm.
  assert (Hfirst : exists rest,
             t = [EvNode analyze_query_node;
                  EvQueryAnalyzer (QueryRequest.question request)] ++ rest).
  { unfold RECURSION_LIMIT in Ht.
    rewrite run_graph_step in Ht by discriminate. unfold bind in Ht.
    pose proof (analyze_step_asks caps state s) as Hasks.
    change (analyzer_question state)
      with (QueryRequest.question request) in Hasks.
    destruct (graph_step caps analyze_query_node state s)
      as [[e|[n' state']] s1]; cbn [fst snd] in *.
    - rewrite Hasks in Ht. apply app_inv_head in Ht.
      exists []. rewrite app_nil_r. symmetry. exact Ht.
    - destruct (run_graph_trace caps 24 n' state' s1) as (t2 & Ht2 & _).
      rewrite Ht2, Hasks, <- app_assoc in Ht. apply app_inv_head in Ht.
      exists t2. symmetry. exact Ht. }
  destruct Hfirst as [rest ->]. exists rest.
  split; [exact Ht|].
  rewrite searches_of_app in Hsearches. rewrite llm_calls_app in Hllm.
  apply Forall_app in Hk3 as [_ Hk3].
  change (searches_of [EvNode analyze_query_node;
                       EvQueryAnalyzer (QueryRequest.question request)])
    with (@nil (pystr * Z)) in Hsearches.
  change (llm_calls [EvNode analyze_query_node;
                     EvQueryAnalyzer (QueryRequest.question request)])
    with 1%nat in Hllm.
  cbn [app length] in Hsearches.
  split; [lia|]. split; [apply searches_of_k3, Hk3 | lia].
Qed.


(* ================================================================== *)
(** * Retrieval across passes *)

Lemma count_text_app (text : pystr) (l1 l2 : list Document) :
  count_text text (l1 ++ l2)
  = (count_text text l1 + count_text text l2)%nat.
Proof. unfold count_text. rewrite filter_app, length_app. reflexivity. Qed.

(** X10: deduplication is within one retrieval only.  A retrieval step
    adds every text it finds once more to [retrieved_documents],
    whether or not an earlier pass had already retrieved it, and leaves
    the number of every other text as it was. *)
Theorem retrieval_repeats_chunks {W : Type} (caps : Capabilities W)
    (state : RAGAgentState) (s : Sys W) (n' : Node)
    (state' : RAGAgentState) (s' : Sys W) :
  graph_step caps retrieve_documents_node state s = (inr (n', state'), s') ->
  exists found,
    search_each caps (search_queries state) []
      (logged retrieve_documents_node s) = (inr found, s') /\
    (forall d, d ∈ found ->
       count_text (page_content d) (retrieved_documents state')
       = S (count_text (page_content d) (retrieved_documents state))) /\
    (forall text,
       (forall d, d ∈ found -> page_content d <> text) ->
       count_text text (retrieved_documents state')
       = count_text text (retrieved_documents state)).
Proof.
  intros Hstep. apply retrieve_step in Hstep as (found & Hsearch & ->).
  exists found. split; [exact Hsearch|].
  rewrite unique_by_content_keep_first. split.
  - intros d Hd. rewrite count_text_app. unfold count_text at 2.
    rewrite (keep_first_once page_content found d Hd). lia.
  - intros text Hnone. rewrite count_text_app.
    replace (count_text text (keep_first_by page_content found)) with 0%nat;
      [lia|].
    symmetry. apply length_zero_iff_nil, elem_of_nil_inv. intros d Hd.
    apply list_elem_of_filter in Hd as [Htext Hd].
    apply (Hnone d); [|exact Htext].
    eapply sublist_subseteq;
      [apply (keep_first_sublist page_content) | exact Hd].
Qed.

(** The chunk "two" was retrieved by an earlier pass and is found
    again: the state then holds it twice. *)
Lemma retrieval_repeats_chunks_witness :
  count_text (py "two") (retrieved_documents Demo.retrieved_again) = 2%nat.
Proof.
  destruct (retrieval_repeats_chunks
              (Demo.caps Demo.two_queries Demo.never) Demo.asked_again
              Demo.start generate_answer_node Demo.retrieved_again
              {| world := 0%nat;
                 trace := [EvNode retrieve_documents_node;
                           EvSimilaritySearch Demo.alpha 3;
                           EvSimilaritySearch Demo.beta 3] |})
    as (found & Hsearch & Hfound & _).
  - vm_compute. reflexivity.
  - vm_compute in Hsearch. injection Hsearch as <-.
    apply (Hfound (Demo.doc "two" "b.md")).
    right. left.
Defined.

(* ================================================================== *)
(** * Evaluations the schema rejects *)

Lemma evaluation_validate_None (raw : RawEvaluationResult) :
  EvaluationResult.validate raw = None <->
  raw_is_sufficient raw = None \/ raw_reason raw = None \/
  match raw_score raw with
  | None => True
  | Some sc => (sc < 0)%Q \/ (1 < sc)%Q
  end.
Proof.
  unfold EvaluationResult.validate.
  destruct (raw_is_sufficient raw) as [b|]; [|tauto].
  destruct (raw_score raw) as [sc|]; [|tauto].
  destruct (raw_reason raw) as [r|]; [|tauto].
  destruct (Qle_bool 0 sc) eqn:H0; destruct (Qle_bool sc 1) eqn:H1;
    cbn [andb].
  - apply Qle_bool_iff in H0, H1. split; [discriminate|].
    intros [?|[?|[Hlt|Hlt]]]; try discriminate;
      exfalso; revert Hlt; apply Qle_not_lt; assumption.
  - split; [intros _|reflexivity]. right. right. right.
    apply Qnot_le_lt. intros Hle. apply Qle_bool_iff in Hle. congruence.
  - split; [intros _|reflexivity]. right. right. left.
    apply Qnot_le_lt. intros Hle. apply Qle_bool_iff in Hle. congruence.
  - split; [intros _|reflexivity]. right. right. left.
    apply Qnot_le_lt. intros Hle. apply Qle_bool_iff in Hle. congruence.
Qed.

Section EvaluationFacts.
Context {W : Type} (caps : Capabilities W).

Lemma evaluate_step_invalid state (s : Sys W) raw w' :
  structured_llm_evaluation caps (query state) (answer state) (world s)
  = (Some raw, w') ->
  EvaluationResult.validate raw = None ->
  graph_step caps evaluate_answer_node state s
  = (inl ValidationError,
     {| world := w';
        trace := (trace s ++ [EvNode evaluate_answer_node])
                 ++ [EvEvaluator (query state) (answer state)] |}).
Proof.
  intros Hcall Hvalid.
  unfold graph_step, bind at 1. cbn [log].
  cbn [node_function]. unfold evaluate_answer, evaluator_invoke.
  unfold bind, call. cbn [world trace]. rewrite Hcall, Hvalid. reflexivity.
Qed.
End EvaluationFacts.

(** X11: an evaluation that lacks the verdict, the score or the reason,
    or whose score is below 0 or above 1, is rejected.  When, at any
    evaluation step of the run of a request, the model sends such an
    evaluation, [query] raises the validation error and returns no
    answer, although an answer had been generated; the log ends with
    that call of the evaluator. *)
Theorem evaluation_violation_is_fatal {W : Type} (caps : Capabilities W)
    (request : QueryRequest.t) (s : Sys W) (c : Config W)
    (raw : RawEvaluationResult) (w' : W) :
  reaches caps (entry request s) c ->
  at_node c = evaluate_answer_node ->
  structured_llm_evaluation caps (query (at_state c)) (answer (at_state c))
    (world (at_sys c)) = (Some raw, w') ->
  raw_is_sufficient raw = None \/ raw_score raw = None \/
  raw_reason raw = None \/
  (exists sc, raw_score raw = Some sc /\ ((sc < 0)%Q \/ (1 < sc)%Q)) ->
  EvaluationResult.validate raw = None /\
  routes.query caps request s
  = (inl ValidationError,
     {| world := w';
        trace := (trace (at_sys c) ++ [EvNode evaluate_answer_node])
                 ++ [EvEvaluator (QueryRequest.question request)
                       (answer (at_state c))] |}).
Proof.
  intros Hreach Hnode Hcall Hraw.
  assert (Hvalid : EvaluationResult.validate raw = None).
  { apply evaluation_validate_None.
    destruct Hraw as [H|[H|[H|(sc & H & Hsc)]]]; rewrite ?H; tauto. }
  split; [exact Hvalid|].
  pose proof (evaluate_step_invalid caps _ _ _ _ Hcall Hvalid) as Hstep.
  rewrite <- Hnode in Hstep at 1.
  pose proof (reaches_frame caps _ _ Hreach) as (Hquery & _ & _).
  cbn [entry at_state initial_state query] in Hquery.
  rewrite Hquery in Hstep.
  apply (query_aborts caps request s c); [exact Hreach | | exact Hstep].
  rewrite Hnode. discriminate.
Qed.

(** The evaluator sends the score 3/2 at the first evaluation. *)
Lemma evaluation_violation_is_fatal_witness :
  fst (routes.query Demo.overrating (Demo.request 5) Demo.start)
  = inl ValidationError.
Proof.
  destruct (evaluation_violation_is_fatal Demo.overrating (Demo.request 5)
              Demo.start
              (config_after Demo.overrating 3
                 (entry (Demo.request 5) Demo.start))
              Demo.overrated 1%nat) as [_ Hquery].
  - apply reaches_config_after.
  - vm_compute. reflexivity.
  - vm_compute. reflexivity.
  - right. right. right. exists (3 # 2)%Q.
    split; [reflexivity | right; reflexivity].
  - rewrite Hquery. reflexivity.
Defined.

(* ================================================================== *)
(** * Uploads that fail *)

(** An accepted upload, up to the call that is run next. *)
Ltac upload_until :=
  unfold routes.upload_document; cbv zeta;
  match goal with
  | H : _ = _ (_ (default [] (filename _))) |- _ => rewrite <- H
  end;
  match goal with
  | H : _ ∈ SUPPORTED_SUFFIXES |- _ => rewrite decide_True by exact H
  end;
  unfold bind, call; cbn [world trace];
  repeat match goal with
    | H : write_temp_file _ _ _ _ = _ |- _ =>
        rewrite H; clear H; cbn [world trace]
    | |- context [decide (?x = py ".pdf")] =>
        destruct (decide (x = py ".pdf")); cbn [world trace]
    | H : load_pdf _ _ = _ |- _ => rewrite H; clear H; cbn [world trace]
    | H : load_markdown _ _ = _ |- _ => rewrite H; clear H; cbn [world trace]
    | H : split_documents _ _ _ _ _ = _ |- _ =>
        rewrite H; clear H; cbn [world trace]
    | H : add_documents _ _ _ = _ |- _ =>
        rewrite H; clear H; cbn [world trace]
    | H : unlink_temp_file _ _ = _ |- _ =>
        rewrite H; clear H; cbn [world trace]
    end;
  rewrite <- ?app_assoc; try reflexivity.

(** X12: an accepted upload that fails fails with the failure of a
    service, at the first call that fails: the world is the one that
    call left and the log of the calls ends with it, so what was done
    before is not undone and what comes after is not run.  When the
    temporary file cannot be written nothing is loaded; when the loader
    fails nothing is split; when the loader or the splitter fails
    nothing is added to the store; and in each of these cases, and when
    the store fails, the temporary file is not removed. *)
Theorem upload_document_failure {W : Type} (caps : Capabilities W)
    (path_suffix str_lower : pystr -> pystr) (settings : Settings)
    (file : UploadFile) (s : Sys W) (suffix : pystr) :
  suffix = str_lower (path_suffix (default [] (filename file))) ->
  suffix ∈ SUPPORTED_SUFFIXES ->
  (forall w1,
     write_temp_file caps suffix (file_bytes file) (world s) = (None, w1) ->
     routes.upload_document caps path_suffix str_lower settings file s
     = (inl BackendError,
        {| world := w1;
           trace := trace s ++ [EvTempFile suffix (file_bytes file)] |})) /\
  (forall w1 w2,
     write_temp_file caps suffix (file_bytes file) (world s)
     = (Some tt, w1) ->
     (if decide (suffix = py ".pdf")
      then load_pdf caps w1 else load_markdown caps w1) = (None, w2) ->
     routes.upload_document caps path_suffix str_lower settings file s
     = (inl BackendError,
        {| world := w2;
           trace := trace s ++
                    [EvTempFile suffix (file_bytes file);
                     if decide (suffix = py ".pdf")
                     then EvLoadPdf else EvLoadMarkdown] |})) /\
  (forall w1 documents w2 w3,
     write_temp_file caps suffix (file_bytes file) (world s)
     = (Some tt, w1) ->
     (if decide (suffix = py ".pdf")
      then load_pdf caps w1 else load_markdown caps w1)
     = (Some documents, w2) ->
     split_documents caps documents (chunk_size settings)
       (chunk_overlap settings) w2 = (None, w3) ->
     routes.upload_document caps path_suffix str_lower settings file s
     = (inl BackendError,
        {| world := w3;
           trace := trace s ++
                    [EvTempFile suffix (file_bytes file);
                     if decide (suffix = py ".pdf")
                     then EvLoadPdf else EvLoadMarkdown;
                     EvSplit documents (chunk_size settings)
                       (chunk_overlap settings)] |})) /\
  (forall w1 documents w2 chunks w3 w4,
     write_temp_file caps suffix (file_bytes file) (world s)
     = (Some tt, w1) ->
     (if decide (suffix = py ".pdf")
      then load_pdf caps w1 else load_markdown caps w1)
     = (Some documents, w2) ->
     split_documents caps documents (chunk_size settings)
       (chunk_overlap settings) w2 = (Some chunks, w3) ->
     add_documents caps chunks w3 = (None, w4) ->
     routes.upload_document caps path_suffix str_lower settings file s
     = (inl BackendError,
        {| world := w4;
           trace := trace s ++
                    [EvTempFile suffix (file_bytes file);
                     if decide (suffix = py ".pdf")
                     then EvLoadPdf else EvLoadMarkdown;
                     EvSplit documents (chunk_size settings)
                       (chunk_overlap settings);
                     EvAddDocuments chunks] |})) /\
  (forall w1 documents w2 chunks w3 w4 w5,
     write_temp_file caps suffix (file_bytes file) (world s)
     = (Some tt, w1) ->
     (if decide (suffix = py ".pdf")
      then load_pdf caps w1 else load_markdown caps w1)
     = (Some documents, w2) ->
     split_documents caps documents (chunk_size settings)
       (chunk_overlap settings) w2 = (Some chunks, w3) ->
     add_documents caps chunks w3 = (Some tt, w4) ->
     unlink_temp_file caps w4 = (None, w5) ->
     routes.upload_document caps path_suffix str_lower settings file s
     = (inl BackendError,
        {| world := w5;
           trace := trace s ++
                    [EvTempFile suffix (file_bytes file);
                     if decide (suffix = py ".pdf")
                     then EvLoadPdf else EvLoadMarkdown;
                     EvSplit documents (chunk_size settings)
                       (chunk_overlap settings);
                     EvAddDocuments chunks;
                     EvUnlink] |})) /\
  (forall e s',
     routes.upload_document caps path_suffix str_lower settings file s
     = (inl e, s') ->
     e = BackendError /\
     ((exists w1,
         write_temp_file caps suffix (file_bytes file) (world s)
         = (None, w1)) \/
      exists w1,
        write_temp_file caps suffix (file_bytes file) (world s)
        = (Some tt, w1) /\
        ((exists w2,
            (if decide (suffix = py ".pdf")
             then load_pdf caps w1 else load_markdown caps w1)
            = (None, w2)) \/
         exists documents w2,
           (if decide (suffix = py ".pdf")
            then load_pdf caps w1 else load_markdown caps w1)
           = (Some documents, w2) /\
           ((exists w3,
               split_documents caps documents (chunk_size settings)
                 (chunk_overlap settings) w2 = (None, w3)) \/
            exists chunks w3,
              split_documents caps documents (chunk_size settings)
                (chunk_overlap settings) w2 = (Some chunks, w3) /\
              ((exists w4, add_documents caps chunks w3 = (None, w4)) \/
               exists w4 w5,
                 add_documents caps chunks w3 = (Some tt, w4) /\
                 unlink_temp_file caps w4 = (None, w5)))))).
Proof.
  intros Hs Hsuffix.
  split; [|split; [|split; [|split; [|split]]]].
  - intros w1 Hwrite. upload_until.
  - intros w1 w2 Hwrite Hload. upload_until.
  - intros w1 documents w2 w3 Hwrite Hload Hsplit. upload_until.
  - intros w1 documents w2 chunks w3 w4 Hwrite Hload Hsplit Hadd.
    upload_until.
  - intros w1 documents w2 chunks w3 w4 w5 Hwrite Hload Hsplit Hadd Hunlink.
    upload_until.
  - intros e s'. unfold routes.upload_document. cbv zeta. rewrite <- Hs.
    rewrite decide_True by exact Hsuffix.
    unfold bind, call. cbn [world trace].
    destruct (write_temp_file caps suffix (file_bytes file) (world s))
      as [[[]|] w1] eqn:Hwrite;
      [|intros Heq; injection Heq as <- _; split; [reflexivity|];
        left; exists w1; reflexivity].
    assert (Hrest : forall documents w2,
      (let (r3, s3) :=
         let (o', w') :=
           split_documents caps documents (chunk_size settings)
             (chunk_overlap settings) w2 in
         (match o' with Some a => inr a | None => inl BackendError end,
          {| world := w';
             trace := ((trace s ++ [EvTempFile suffix (file_bytes file)])
                       ++ [if decide (suffix = py ".pdf")
                           then EvLoadPdf else EvLoadMarkdown])
                      ++ [EvSplit documents (chunk_size settings)
                            (chunk_overlap settings)] |}) in
       match r3 with
       | inl e0 => (inl e0, s3)
       | inr chunks =>
           let (r4, s4) :=
             let (o', w') := add_documents caps chunks (world s3) in
             (match o' with Some a => inr a | None => inl BackendError end,
              {| world := w';
                 trace := trace s3 ++ [EvAddDocuments chunks] |}) in
           match r4 with
           | inl e0 => (inl e0, s4)
           | inr _ =>
               let (r5, s5) :=
                 let (o', w') := unlink_temp_file caps (world s4) in
                 (match o' with
                  | Some a => inr a | None => inl BackendError end,
                  {| world := w'; trace := trace s4 ++ [EvUnlink] |}) in
               match r5 with
               | inl e0 => (inl e0, s5)
               | inr _ =>
                   ret {| UploadResponse.message :=
                            default (py "None") (filename file)
                            ++ UPLOAD_DONE;
                          UploadResponse.document_count :=
                            Z.of_nat (length chunks) |} s5
               end
           end
       end) = (inl e, s') ->
      e = BackendError /\
      ((exists w3,
          split_documents caps documents (chunk_size settings)
            (chunk_overlap settings) w2 = (None, w3)) \/
       exists chunks w3,
         split_documents caps documents (chunk_size settings)
           (chunk_overlap settings) w2 = (Some chunks, w3) /\
         ((exists w4, add_documents caps chunks w3 = (None, w4)) \/
          exists w4 w5,
            add_documents caps chunks w3 = (Some tt, w4) /\
            unlink_temp_file caps w4 = (None, w5)))).
    { intros documents w2.
      destruct (split_documents caps documents (chunk_size settings)
                  (chunk_overlap settings) w2) as [[chunks|] w3];
        cbn [world trace];
        [|intros Heq; injection Heq as <- _; split; [reflexivity|];
          left; exists w3; reflexivity].
      destruct (add_documents caps chunks w3) as [[[]|] w4] eqn:Hadd;
        cbn [world trace];
        [|intros Heq; injection Heq as <- _; split; [reflexivity|];
          right; exists chunks, w3; split; [reflexivity|];
          left; exists w4; exact Hadd].
      destruct (unlink_temp_file caps w4) as [[[]|] w5] eqn:Hunlink;
        cbn [world trace]; [discriminate|].
      intros Heq; injection Heq as <- _; split; [reflexivity|].
      right; exists chunks, w3; split; [reflexivity|].
      right; exists w4, w5; split; [exact Hadd | exact Hunlink]. }
    destruct (decide (suffix = py ".pdf")) as [Hpdf|Hpdf]; cbn [world trace].
    + destruct (load_pdf caps w1) as [[documents|] w2] eqn:Hload;
        cbn [world trace].
      * intros Heq. destruct (Hrest documents w2 Heq) as [He Hcases].
        split; [exact He|]. right. exists w1. split; [reflexivity|].
        right. exists documents, w2. split; [exact Hload | exact Hcases].
      * intros Heq; injection Heq as <- _; split; [reflexivity|].
        right. exists w1. split; [reflexivity|]. left. exists w2.
        exact Hload.
    + destruct (load_markdown caps w1) as [[documents|] w2] eqn:Hload;
        cbn [world trace].
      * intros Heq. destruct (Hrest documents w2 Heq) as [He Hcases].
        split; [exact He|]. right. exists w1. split; [reflexivity|].
        right. exists documents, w2. split; [exact Hload | exact Hcases].
      * intros Heq; injection Heq as <- _; split; [reflexivity|].
        right. exists w1. split; [reflexivity|]. left. exists w2.
        exact Hload.
Qed.

(** With a store that cannot be reached, the upload of "scan.PDF" stops
    at the loader of PDF files and the upload of "notes.md" at the
    splitter; neither adds anything nor removes the temporary file. *)
Lemma upload_document_failure_witness :
  routes.upload_document Demo.store_down Demo.path_suffix Demo.str_lower
    Demo.settings (Demo.upload "scan.PDF") Demo.start
  = (inl BackendError,
     {| world := 1%nat;
        trace := [EvTempFile (py ".pdf") (py "text"); EvLoadPdf] |}) /\
  routes.upload_document Demo.store_down Demo.path_suffix Demo.str_lower
    Demo.settings (Demo.upload "notes.md") Demo.start
  = (inl BackendError,
     {| world := 1%nat;
        trace := [EvTempFile (py ".md") (py "text"); EvLoadMarkdown;
                  EvSplit [Demo.doc "one" "a.md"] 1000 200] |}).
Proof.
  split.
  - apply (proj1 (proj2 (upload_document_failure Demo.store_down
                           Demo.path_suffix Demo.str_lower Demo.settings
                           (Demo.upload "scan.PDF") Demo.start (py ".pdf")
                           ltac:(vm_compute; reflexivity)
                           ltac:(apply (bool_decide_unpack _); vm_compute;
                                 exact I)))
             0%nat 1%nat); reflexivity.
  - apply (proj1 (proj2 (proj2 (upload_document_failure Demo.store_down
                                  Demo.path_suffix Demo.str_lower
                                  Demo.settings (Demo.upload "notes.md")
                                  Demo.start (py ".md")
                                  ltac:(vm_compute; reflexivity)
                                  ltac:(apply (bool_decide_unpack _);
                                        vm_compute; exact I))))
             0%nat [Demo.doc "one" "a.md"] 0%nat 1%nat); reflexivity.
Defined.

(* ================================================================== *)
(** * What the model is asked *)

Lemma analyzer_question_prefix (state : RAGAgentState) :
  query state `prefix_of` analyzer_question state.
Proof.
  unfold analyzer_question, feedback_question.
  destruct (_ && _); [apply prefix_app_r|]; reflexivity.
Qed.

Lemma asks_about_question n state (e : Event) :
  asks n state e -> about_question (query state) e.
Proof.
  destruct n, e; cbn; try tauto.
  intros ->. apply analyzer_question_prefix.
Qed.

Lemma run_graph_about_question {W : Type} (caps : Capabilities W) fuel :
  forall n state (s : Sys W),
  exists t,
    trace (snd (run_graph caps fuel n state s)) = trace s ++ t /\
    Forall (about_question (query state)) t.
Proof.
  induction fuel as [|fuel IH]; intros n state s;
    destruct (decide (n = END)) as [->|Hn];
    try (rewrite run_graph_END; exists []; rewrite app_nil_r;
         split; [reflexivity | constructor]).
  - rewrite run_graph_O by exact Hn. exists []. rewrite app_nil_r.
    split; [reflexivity | constructor].
  - rewrite run_graph_step by exact Hn. unfold bind.
    destruct (graph_step_asks caps n state s) as (t1 & Ht1 & Hall & _).
    assert (Hall' : Forall (about_question (query state)) (EvNode n :: t1)).
    { constructor; [exact I|]. eapply Forall_impl; [exact Hall|].
      apply asks_about_question. }
    destruct (graph_step caps n state s) as [[e|[n' state']] s1] eqn:Hstep;
      cbn [fst snd] in *.
    + exists (EvNode n :: t1). split; [exact Ht1 | exact Hall'].
    + destruct (IH n' state' s1) as (t2 & Ht2 & Hall2).
      apply graph_step_frame in Hstep as (Hquery & _).
      rewrite Hquery in Hall2.
      exists ((EvNode n :: t1) ++ t2). rewrite Ht2, Ht1, app_assoc.
      split; [reflexivity | apply Forall_app; split; assumption].
Qed.

(** X13: during a request the model is asked about the user's
    question and no other: every call of the answer generator and of
    the evaluator carries the question as it was asked, and every call
    of the query analyzer carries a text that begins with it. *)
Theorem request_is_about_the_question {W : Type} (caps : Capabilities W)
    (request : QueryRequest.t) (s : Sys W) :
  exists t,
    trace (snd (routes.query caps request s)) = trace s ++ t /\
    Forall (about_question (QueryRequest.question request)) t.
Proof.
  rewrite query_snd, agent_invoke_unfold.
  apply (run_graph_about_question caps RECURSION_LIMIT analyze_query_node
           (initial_state (QueryRequest.question request)) s).
Qed.

(** The questions the analyzer gets when the evaluator is never
    satisfied: the question, then twice the question with the reason of
    the evaluation. *)
Example analyzer_questions_example :
  analyzer_questions_of
    (trace (snd (routes.query (Demo.caps Demo.two_queries Demo.never)
                   (Demo.request 5) Demo.start)))
  = [py "q"; feedback_question (py "q") (py "no figures");
     feedback_question (py "q") (py "no figures")].
Proof. vm_compute. reflexivity. Qed.
